(** * Epidemic simulation front end: local (fallback) engine, telemetry
      window, quarantine animation and network construction.

    Shallow embedding of [src/frontend/script.js] and
    [src/frontend/realtime-chart.js].

    Conventions of the embedding
    - JavaScript numbers that hold coordinates, rates and random draws are
      rationals ([Q]): the arithmetic is the exact one the doubles
      approximate.  Counters, steps and timestamps are integers ([Z]),
      array indices and node ids are naturals.
    - [Math.random()] is an oracle [rng : nat -> Q]; the position of the
      next draw is threaded through every function that draws, so the
      short-circuit evaluation of the source decides how many draws are
      consumed.
    - The compartment strings ['healthy'], ['infected'], ['recovered'],
      ['quarantined'], ['deceased'] are the constructors of [State]; the
      local engine never writes another string.
    - A thrown [TypeError] (reading [.state] of [undefined]) is [None]. *)

From Stdlib Require Import ZArith QArith Qround Qminmax Lqa Lia.
From stdpp Require Import base option list gmap.

Local Open Scope Z_scope.

(** ** Rational helpers *)

(** [a < b] on numbers, as a boolean. *)
Definition Qltb (a b : Q) : bool := negb (Qle_bool b a).

(** [Math.pow(b, 3)]. *)
Definition cube (b : Q) : Q := (b * b * b)%Q.

(** ** Data model *)

Inductive State : Type :=
  | healthy | infected | recovered | quarantined | deceased.

#[global] Instance State_eq_dec : EqDecision State.
Proof. solve_decision. Defined.

(** A node object.  [originalX]/[originalY] are [undefined] ([None]) until
    a quarantine animation saves the position. *)
Record Node : Type := mkNode {
  id : nat;
  x : Q;
  y : Q;
  state : State;
  infectionTime : Z;
  quarantineTime : Z;
  originalX : option Q;
  originalY : option Q
}.

Definition set_state (s : State) (n : Node) : Node :=
  mkNode (id n) (x n) (y n) s (infectionTime n) (quarantineTime n)
         (originalX n) (originalY n).

Definition set_infectionTime (t : Z) (n : Node) : Node :=
  mkNode (id n) (x n) (y n) (state n) t (quarantineTime n)
         (originalX n) (originalY n).

Definition set_quarantineTime (t : Z) (n : Node) : Node :=
  mkNode (id n) (x n) (y n) (state n) (infectionTime n) t
         (originalX n) (originalY n).

Definition set_original (ox oy : option Q) (n : Node) : Node :=
  mkNode (id n) (x n) (y n) (state n) (infectionTime n) (quarantineTime n)
         ox oy.

Definition set_position (px py : Q) (n : Node) : Node :=
  mkNode (id n) px py (state n) (infectionTime n) (quarantineTime n)
         (originalX n) (originalY n).

(** An edge holds two indices into [simulation.nodes]. *)
Record Edge : Type := mkEdge { source : nat; target : nat }.

(** The global [simulation] object (with the rates that
    [startFallbackSimulation] stores on it). *)
Record Simulation : Type := mkSimulation {
  running : bool;
  nodes : list Node;
  edges : list Edge;
  step : Z;
  day : Z;
  backendConnected : bool;
  infectionRate : Q;
  recoveryRate : Q;
  deathRate : Q;
  quarantineRate : Q
}.

(** An entry of the [nodeAnimations] map. *)
Record Animation : Type := mkAnimation {
  startX : Q;
  startY : Q;
  targetX : Q;
  targetY : Q;
  startTime : Z;
  duration : Z
}.

Definition ANIMATION_DURATION : Z := 1000.

Record Area : Type := mkArea { ax : Q; ay : Q; width : Q; height : Q }.

Definition QUARANTINE_AREA : Area :=
  mkArea (7 # 10) (7 # 10) (25 # 100) (25 # 100).

(** ** RealtimeChart: the telemetry window *)

(** A value read from a statistics object: [None] is [undefined]. *)
Definition JsNum : Type := option Z.

Record Stats : Type := mkStats {
  st_healthy : JsNum;
  st_infected : JsNum;
  st_recovered : JsNum;
  st_quarantined : JsNum;
  st_deceased : JsNum
}.

Record ChartData : Type := mkChartData {
  d_healthy : list JsNum;
  d_infected : list JsNum;
  d_recovered : list JsNum;
  d_quarantined : list JsNum;
  d_deceased : list JsNum;
  d_timestamps : list JsNum
}.

Record RealtimeChart : Type := mkChart {
  maxDataPoints : nat;
  data : ChartData
}.

Definition emptyData : ChartData := mkChartData [] [] [] [] [] [].

(** [new RealtimeChart(containerId, maxDataPoints = 100)]. *)
Definition newChart (maxPoints : option nat) : RealtimeChart :=
  mkChart (default 100%nat maxPoints) emptyData.

(** [v || 0] on a count: [undefined] and [0] both give [0]. *)
Definition orZero (v : JsNum) : JsNum := Some (default 0 v).

(** [Array.prototype.push]. *)
Definition push {A} (l : list A) (v : A) : list A := l ++ [v].

(** [Array.prototype.shift]: drops the first element (no-op when empty). *)
Definition shift {A} (l : list A) : list A := tail l.

Definition addDataPoint (stats : Stats) (stp : JsNum) (c : RealtimeChart)
  : RealtimeChart :=
  let d := data c in
  let d1 := mkChartData
              (push (d_healthy d) (st_healthy stats))
              (push (d_infected d) (st_infected stats))
              (push (d_recovered d) (st_recovered stats))
              (push (d_quarantined d) (orZero (st_quarantined stats)))
              (push (d_deceased d) (orZero (st_deceased stats)))
              (push (d_timestamps d) stp) in
  if (maxDataPoints c <? length (d_healthy d1))%nat then
    mkChart (maxDataPoints c)
      (mkChartData (shift (d_healthy d1)) (shift (d_infected d1))
                   (shift (d_recovered d1)) (shift (d_quarantined d1))
                   (shift (d_deceased d1)) (shift (d_timestamps d1)))
  else mkChart (maxDataPoints c) d1.

Definition clear (c : RealtimeChart) : RealtimeChart :=
  mkChart (maxDataPoints c) emptyData.

(** ** The whole mutable state of the page *)

Record World : Type := mkWorld {
  simulation : Simulation;
  nodeAnimations : gmap nat Animation;
  realtimeChart : RealtimeChart
}.

(** ** Quarantine animation bookkeeping *)

(** [!v] for a saved coordinate: true for [undefined] and for [0]. *)
Definition falsy (v : option Q) : bool :=
  match v with
  | None => true
  | Some q => Qeq_bool q 0
  end.

Definition quarantineSlotX (i : nat) : Q :=
  (ax QUARANTINE_AREA
   + inject_Z (Z.of_nat (i mod 10)) * (width QUARANTINE_AREA / 10)
   + width QUARANTINE_AREA * (5 # 100))%Q.

Definition quarantineSlotY (i : nat) : Q :=
  (ay QUARANTINE_AREA
   + inject_Z (Z.of_nat ((i mod 100) / 10)) * (height QUARANTINE_AREA / 10)
   + height QUARANTINE_AREA * (5 # 100))%Q.

(** [startQuarantineAnimation(node)] at time [now]: saves the position if
    none is saved and registers the move to the node's quarantine slot. *)
Definition startQuarantineAnimation (now : Z) (node : Node)
    (anims : gmap nat Animation) : Node * gmap nat Animation :=
  let node1 :=
    if falsy (originalX node) || falsy (originalY node)
    then set_original (Some (x node)) (Some (y node)) node
    else node in
  let finalX :=
    Qmin (ax QUARANTINE_AREA + width QUARANTINE_AREA - (1 # 100))
         (Qmax (ax QUARANTINE_AREA + (1 # 100)) (quarantineSlotX (id node))) in
  let finalY :=
    Qmin (ay QUARANTINE_AREA + height QUARANTINE_AREA - (1 # 100))
         (Qmax (ay QUARANTINE_AREA + (1 # 100)) (quarantineSlotY (id node))) in
  (node1,
   <[id node := mkAnimation (x node1) (y node1) finalX finalY now
                            ANIMATION_DURATION]> anims).

(** [endQuarantineAnimation(node)]: registers the move back to the saved
    position, when one is saved. *)
Definition endQuarantineAnimation (now : Z) (node : Node)
    (anims : gmap nat Animation) : gmap nat Animation :=
  match originalX node, originalY node with
  | Some ox, Some oy =>
      <[id node := mkAnimation (x node) (y node) ox oy now
                               ANIMATION_DURATION]> anims
  | _, _ => anims
  end.

(** ** Easing ([updateAnimations]) *)

(** [Math.min(elapsed / anim.duration, 1)]. *)
Definition animProgress (anim : Animation) (now : Z) : Q :=
  Qmin (inject_Z (now - startTime anim) / inject_Z (duration anim)) 1.

(** [1 - Math.pow(1 - progress, 3)]. *)
Definition easeProgress (progress : Q) : Q := (1 - cube (1 - progress))%Q.

(** [start + (target - start) * easeProgress]. *)
Definition interpolate (start tgt progress : Q) : Q :=
  (start + (tgt - start) * easeProgress progress)%Q.

(** The coordinate written by one pass of the loop body for a given
    progress: the interpolated value, overwritten by the target once
    [progress >= 1]. *)
Definition positionAt (start tgt progress : Q) : Q :=
  if Qle_bool 1 progress then tgt else interpolate start tgt progress.

(** The loop body of [updateAnimations] for a node that exists: the updated
    node, and whether the animation is put on the removal list. *)
Definition updateAnimation (now : Z) (anim : Animation) (node : Node)
  : Node * bool :=
  let progress := animProgress anim now in
  let node1 := set_position (interpolate (startX anim) (targetX anim) progress)
                            (interpolate (startY anim) (targetY anim) progress)
                            node in
  if Qle_bool 1 progress then
    let node2 := set_position (targetX anim) (targetY anim) node1 in
    let node3 := if decide (state node2 = quarantined) then node2
                 else set_original None None node2 in
    (node3, true)
  else (node1, false).

(** ** The local engine: [fallbackSimulationLoop] *)

Section Engine.

(** [Math.random()]: the [k]-th draw of the run. *)
Variable rng : nat -> Q.

(** State threaded through the progression loop: the position of the next
    draw and the [nodeAnimations] map. *)
Record Env : Type := mkEnv { pos : nat; anims : gmap nat Animation }.

Definition St (A : Type) : Type := Env -> A * Env.

Definition ret {A} (a : A) : St A := fun e => (a, e).

Definition bind {A B} (f : A -> St B) (m : St A) : St B :=
  fun e => let (a, e1) := m e in f a e1.

#[local] Instance St_ret : MRet St := @ret.
#[local] Instance St_bind : MBind St := @bind.

(** [Math.random()] *)
Definition random : St Q := fun e => (rng (pos e), mkEnv (S (pos e)) (anims e)).

Definition startAnim (now : Z) (node : Node) : St Node :=
  fun e => let (n1, a1) := startQuarantineAnimation now node (anims e) in
           (n1, mkEnv (pos e) a1).

Definition endAnim (now : Z) (node : Node) : St Node :=
  fun e => (node, mkEnv (pos e) (endQuarantineAnimation now node (anims e))).

(** *** Transmission loop (one edge) *)

(** [source.state = 'infected'; source.infectionTime = 0] *)
Definition infect (n : Node) : Node :=
  set_infectionTime 0 (set_state infected n).

Definition transmits (s t : Node) : bool :=
  (bool_decide (state s = infected) && bool_decide (state t = healthy))
  || (bool_decide (state t = infected) && bool_decide (state s = healthy)).

(** Body of [for (const edge of simulation.edges)].  The nodes are
    updated in place, so the next edge reads the updated array. *)
Definition transmitEdge (rate : Q) (e : Edge) (ns : list Node) (p : nat)
  : option (list Node * nat) :=
  match ns !! source e, ns !! target e with
  | Some s, Some t =>
      if transmits s t then
        if Qltb (rng p) rate then
          if bool_decide (state s = healthy)
          then Some (<[source e := infect s]> ns, S p)
          else Some (<[target e := infect t]> ns, S p)
        else Some (ns, S p)
      else Some (ns, p)
  | _, _ => None
  end.

Fixpoint transmission (rate : Q) (es : list Edge) (ns : list Node) (p : nat)
  : option (list Node * nat) :=
  match es with
  | [] => Some (ns, p)
  | e :: es' =>
      match transmitEdge rate e ns p with
      | Some (ns1, p1) => transmission rate es' ns1 p1
      | None => None
      end
  end.

(** *** Progression loop (one node) *)

(** [if (node.infectionTime > 7 && Math.random() < quarantineRate)]:
    the draw is made only when the counter test passes. *)
Definition quarantineCheck (now : Z) (qRate : Q) (oldState : State)
    (node : Node) : St Node :=
  if 7 <? infectionTime node then
    r ← random;
    if Qltb r qRate then
      let node1 := set_quarantineTime 0 (set_state quarantined node) in
      if decide (oldState <> quarantined) then startAnim now node1
      else ret node1
    else ret node
  else ret node.

(** [if (node.infectionTime > 14) { death draw, else recovery draw }]:
    the test reads the counter only, not [node.state]. *)
Definition deathRecoveryCheck (dRate rRate : Q) (node : Node) : St Node :=
  if 14 <? infectionTime node then
    r ← random;
    if Qltb r dRate then ret (set_state deceased node)
    else
      r2 ← random;
      if Qltb r2 rRate then ret (set_state recovered node)
      else ret node
  else ret node.

Definition quarantineProgress (now : Z) (rRate : Q) (oldState : State)
    (node : Node) : St Node :=
  let node1 := set_quarantineTime (quarantineTime node + 1) node in
  if 14 <? quarantineTime node1 then
    r ← random;
    if Qltb r rRate then
      let node2 := set_state recovered node1 in
      if decide (oldState = quarantined) then endAnim now node2
      else ret node2
    else ret node1
  else ret node1.

(** Body of [for (const node of simulation.nodes)]. *)
Definition progressNode (now : Z) (sim : Simulation) (node : Node)
  : St Node :=
  let oldState := state node in
  match state node with
  | infected =>
      let node1 := set_infectionTime (infectionTime node + 1) node in
      node2 ← quarantineCheck now (quarantineRate sim) oldState node1;
      deathRecoveryCheck (deathRate sim) (recoveryRate sim) node2
  | quarantined =>
      quarantineProgress now (recoveryRate sim) oldState node
  | _ => ret node
  end.

Fixpoint progression (now : Z) (sim : Simulation) (ns : list Node)
  : St (list Node) :=
  match ns with
  | [] => ret []
  | n :: ns' =>
      n1 ← progressNode now sim n;
      ns1 ← progression now sim ns';
      ret (n1 :: ns1)
  end.

(** *** Statistics of a population *)

Definition countState (s : State) (ns : list Node) : nat :=
  length (filter (fun n => state n = s) ns).

(** The [stats] object built at the end of a step. *)
Definition computeStats (ns : list Node) : Stats :=
  mkStats (Some (Z.of_nat (countState healthy ns)))
          (Some (Z.of_nat (countState infected ns)))
          (Some (Z.of_nat (countState recovered ns)))
          (Some (Z.of_nat (countState quarantined ns)))
          (Some (Z.of_nat (countState deceased ns))).

(** *** One invocation of [fallbackSimulationLoop] *)

(** [now] is the value of [Date.now()] during the invocation, [p] the
    position of the next random draw.  The result is [None] when an edge
    names a node that does not exist (the source throws).  The calls that
    only paint ([updateStats], [drawNetwork], the step and day labels) and
    the scheduling of the next invocation are not part of the state.  The
    animation frame that the invocation may start at its end moves nodes
    along their registered animations ([updateAnimation] above); it writes
    positions, saved positions and the animation map only, never a
    compartment or a counter. *)
Definition fallbackSimulationLoop (now : Z) (w : World) (p : nat)
  : option (World * nat) :=
  let sim := simulation w in
  if negb (running sim) || backendConnected sim then Some (w, p)
  else
    match transmission (infectionRate sim) (edges sim) (nodes sim) p with
    | None => None
    | Some (ns1, p1) =>
        let (ns2, env) :=
          progression now sim ns1 (mkEnv p1 (nodeAnimations w)) in
        let step1 := step sim + 1 in
        let sim1 :=
          mkSimulation (running sim) ns2 (edges sim) step1 (step1 / 3)
                       (backendConnected sim) (infectionRate sim)
                       (recoveryRate sim) (deathRate sim)
                       (quarantineRate sim) in
        Some (mkWorld sim1 (anims env)
                      (addDataPoint (computeStats ns2) (Some step1)
                                    (realtimeChart w)),
              pos env)
    end.

(** Successive invocations, one per timestamp in [nows]. *)
Fixpoint runSteps (nows : list Z) (w : World) (p : nat)
  : option (World * nat) :=
  match nows with
  | [] => Some (w, p)
  | now :: rest =>
      match fallbackSimulationLoop now w p with
      | Some (w1, p1) => runSteps rest w1 p1
      | None => None
      end
  end.

End Engine.

(** ** [resetSimulation] *)

Definition resetNode (n : Node) : Node :=
  set_original None None (set_state healthy n).

(** The synchronous effect of [resetSimulation] on the page state (the
    requests sent to the backend when it is connected complete later). *)
Definition resetSimulation (w : World) : World :=
  let sim := simulation w in
  mkWorld
    (mkSimulation false (map resetNode (nodes sim)) (edges sim) 0 0
                  (backendConnected sim) (infectionRate sim)
                  (recoveryRate sim) (deathRate sim) (quarantineRate sim))
    ∅
    (clear (realtimeChart w)).

(** ** [createFallbackNetwork]: the edge loop *)

Section Topology.

Variable rng : nat -> Q.

(** [Math.floor(Math.random() * n)] with the draw at position [p]. *)
Definition randomBelow (n : nat) (p : nat) : nat :=
  Z.to_nat (Qfloor (rng p * inject_Z (Z.of_nat n))).

(** [Math.floor(Math.random() * 3) + 3] with the draw at position [p]. *)
Definition numConnections (p : nat) : nat :=
  Z.to_nat (Qfloor (rng p * 3) + 3).

(** The loop [for (let j = 0; j < numConnections; j++)] of node [i], with
    [fuel] iterations left: a draw that hits [i] itself or a node already
    in [connected] is dropped, and the iteration is spent. *)
Fixpoint connectLoop (nodeCount i fuel : nat) (connected : gset nat)
    (p : nat) : list Edge * nat :=
  match fuel with
  | O => ([], p)
  | S fuel' =>
      let tgt := randomBelow nodeCount p in
      if bool_decide (tgt <> i) && bool_decide (tgt ∉ connected) then
        let (es, p1) :=
          connectLoop nodeCount i fuel' ({[tgt]} ∪ connected) (S p) in
        (mkEdge i tgt :: es, p1)
      else connectLoop nodeCount i fuel' connected (S p)
  end.

(** Body of the outer loop for node [i]. *)
Definition connectNode (nodeCount i p : nat) : list Edge * nat :=
  connectLoop nodeCount i (numConnections p) ∅ (S p).

(** The outer loop over [count] nodes starting at node [i]. *)
Fixpoint edgeLoop (nodeCount count i p : nat) : list Edge * nat :=
  match count with
  | O => ([], p)
  | S count' =>
      let (es, p1) := connectNode nodeCount i p in
      let (rest, p2) := edgeLoop nodeCount count' (S i) p1 in
      (es ++ rest, p2)
  end.

(** [simulation.edges] after [createFallbackNetwork]; the node loop that
    runs first has consumed two draws per node. *)
Definition createFallbackEdges (nodeCount : nat) : list Edge :=
  fst (edgeLoop nodeCount nodeCount 0 (2 * nodeCount)).

(** Position of the draw that chooses the number of connections of node
    [i], when the loop started at node [0] with the draw at [p]. *)
Definition degreeDraw (nodeCount i p : nat) : nat :=
  snd (edgeLoop nodeCount i 0 p).

(** The edges pushed for node [i]. *)
Definition outEdges (i : nat) (es : list Edge) : list Edge :=
  filter (fun e => source e = i) es.

End Topology.

(** The targets drawn by [d] iterations of the inner loop when the first
    of them uses the draw at position [p]. *)
Definition targetDraws (rng : nat -> Q) (n p d : nat) : list nat :=
  map (randomBelow rng n) (seq p d).

(** [const nodeCount = 500] *)
Definition nodeCount : nat := 500.

(** ** Relations and predicates used to state the properties *)

(** What the transmission loop may do to one node: nothing, or infect it
    if it was healthy. *)
Definition transmitted (n n1 : Node) : Prop :=
  n1 = n \/ (state n = healthy /\ n1 = infect n).

(** What the progression loop may do to one node. *)
Definition progressed (n n1 : Node) : Prop :=
  match state n with
  | infected =>
      infectionTime n1 = infectionTime n + 1 /\
      (state n1 = infected \/
       (state n1 = quarantined /\ 7 < infectionTime n1) \/
       ((state n1 = deceased \/ state n1 = recovered)
        /\ 14 < infectionTime n1))
  | quarantined =>
      infectionTime n1 = infectionTime n /\
      quarantineTime n1 = quarantineTime n + 1 /\
      (state n1 = quarantined \/
       (state n1 = recovered /\ 14 < quarantineTime n1))
  | _ => n1 = n
  end.

(** One invocation of the loop, seen from one node. *)
Definition stepped (n n2 : Node) : Prop :=
  exists n1, transmitted n n1 /\ progressed n1 n2.

(** Any number of invocations, seen from one node. *)
Inductive steppedStar : Node -> Node -> Prop :=
  | steppedStar_refl n : steppedStar n n
  | steppedStar_step n n1 n2 :
      stepped n n1 -> steppedStar n1 n2 -> steppedStar n n2.

(** Every edge names two existing nodes. *)
Definition edgesInRange (w : World) : Prop :=
  Forall (fun e => (source e < length (nodes (simulation w)))%nat
                   /\ (target e < length (nodes (simulation w)))%nat)
         (edges (simulation w)).

(** The sum of the five counts of a statistics object. *)
Definition statsTotal (s : Stats) : option Z :=
  h ← st_healthy s; i ← st_infected s; r ← st_recovered s;
  q ← st_quarantined s; d ← st_deceased s;
  Some (h + i + r + q + d).

(** The six series of a chart. *)
Definition series (c : RealtimeChart) : list (list JsNum) :=
  let d := data c in
  [d_healthy d; d_infected d; d_recovered d; d_quarantined d; d_deceased d;
   d_timestamps d].

(** Operations a chart receives during its life. *)
Inductive ChartOp : Type :=
  | OpAdd (stats : Stats) (stp : JsNum)
  | OpClear.

Definition applyOp (c : RealtimeChart) (op : ChartOp) : RealtimeChart :=
  match op with
  | OpAdd stats stp => addDataPoint stats stp c
  | OpClear => clear c
  end.

Definition applyOps (ops : list ChartOp) (c : RealtimeChart) : RealtimeChart :=
  fold_left applyOp ops c.

(** The last [w] elements of a list. *)
Definition lastN {A} (w : nat) (l : list A) : list A :=
  drop (length l - w) l.

(** A draw of [Math.random()] lies in [0, 1). *)
Definition unitDraws (rng : nat -> Q) : Prop :=
  forall k, (0 <= rng k)%Q /\ (rng k < 1)%Q.

(** ** The snapshot reading of a step, as a specification

    Under a snapshot semantics, a node that a step infects was reached over
    an edge whose other endpoint was already Infected when the step began
    ([snapshotTransmission]), and the progression of that step does not
    touch its fresh counter ([snapshotProgression]). *)

Definition snapshotTransmission : Prop :=
  forall rng now w p w1 p1 k n n1,
    fallbackSimulationLoop rng now w p = Some (w1, p1) ->
    nodes (simulation w) !! k = Some n ->
    nodes (simulation w1) !! k = Some n1 ->
    state n = healthy -> state n1 = infected ->
    exists e j m,
      e ∈ edges (simulation w) /\
      ((source e = k /\ target e = j) \/ (source e = j /\ target e = k)) /\
      nodes (simulation w) !! j = Some m /\ state m = infected.

Definition snapshotProgression : Prop :=
  forall rng now w p w1 p1 k n n1,
    fallbackSimulationLoop rng now w p = Some (w1, p1) ->
    nodes (simulation w) !! k = Some n ->
    nodes (simulation w1) !! k = Some n1 ->
    state n = healthy -> state n1 = infected ->
    infectionTime n1 = 0.

(** ** The exact-degree reading of the edge loop, as a specification

    Every node ends with exactly as many out-edges as the degree it drew. *)
Definition exactDegree : Prop :=
  forall rng, unitDraws rng ->
  forall i, (i < nodeCount)%nat ->
    length (outEdges i (createFallbackEdges rng nodeCount))
    = numConnections rng (degreeDraw rng nodeCount i (2 * nodeCount)).

(** ** The per-node counters after a reset, as a specification *)
Definition resetZeroesCounters : Prop :=
  forall w n, n ∈ nodes (simulation (resetSimulation w)) ->
    infectionTime n = 0 /\ quarantineTime n = 0.

(** ** Histories of a chart *)

(** The calls [addDataPoint(stats, step)] of a list, in order. *)
Definition recordAll (pts : list (Stats * JsNum)) (c : RealtimeChart)
  : RealtimeChart :=
  fold_left (fun c pt => addDataPoint pt.1 pt.2 c) pts c.

(** What a list of calls pushes onto each of the six series. *)
Definition pointsOf (pts : list (Stats * JsNum)) : list (list JsNum) :=
  [map (fun pt => st_healthy pt.1) pts;
   map (fun pt => st_infected pt.1) pts;
   map (fun pt => st_recovered pt.1) pts;
   map (fun pt => orZero (st_quarantined pt.1)) pts;
   map (fun pt => orZero (st_deceased pt.1)) pts;
   map (fun pt => pt.2) pts].

(** A chart whose six series are the last [maxDataPoints] points of some
    history. *)
Definition windowOf (pts : list (Stats * JsNum)) (c : RealtimeChart) : Prop :=
  series c = map (lastN (maxDataPoints c)) (pointsOf pts).

(** ** Concrete populations used as examples *)

(** Every draw of [Math.random()] returns [0]. *)
Definition rng0 : nat -> Q := fun _ => 0%Q.

Definition exampleNode (i : nat) (s : State) (it qt : Z) : Node :=
  mkNode i (1 # 2) (1 # 2) s it qt None None.

(** Three nodes in a chain [0 - 1 - 2] with node [0] infected, and three
    more nodes in the compartments that have no edge; every rate is [1]. *)
Definition chainWorld : World :=
  mkWorld
    (mkSimulation true
       [exampleNode 0 infected 0 0; exampleNode 1 healthy 0 0;
        exampleNode 2 healthy 0 0; exampleNode 3 deceased 20 0;
        exampleNode 4 recovered 20 3; exampleNode 5 quarantined 9 14]
       [mkEdge 0 1; mkEdge 1 2] 0 0 false 1 1 1 1)
    ∅ (newChart None).

(** One node, infected for 14 steps; quarantine and death rates are [1]. *)
Definition lateWorld : World :=
  mkWorld
    (mkSimulation true [exampleNode 0 infected 14 0] [] 14 4 false 1 0 1 1)
    ∅ (newChart None).

(** One node, infected for 7 steps; only the quarantine rate is [1]. *)
Definition weekWorld : World :=
  mkWorld
    (mkSimulation true [exampleNode 0 infected 7 0] [] 7 2 false 0 0 0 1)
    ∅ (newChart None).

(** [chainWorld] after one and after two invocations of the loop (at times
    0 and 1000) with [rng0]. *)
Definition chainWorld1 : World :=
  Eval vm_compute in
    match fallbackSimulationLoop rng0 0 chainWorld 0 with
    | Some (w, _) => w
    | None => chainWorld
    end.

Definition chainWorld2 : World :=
  Eval vm_compute in
    match runSteps rng0 [0; 1000] chainWorld 0 with
    | Some (w, _) => w
    | None => chainWorld
    end.

(** ** Further functions of the page *)

(** *** [createFallbackNetwork]: the node loop and the whole function *)

(** A node object as [createFallbackNetwork] pushes it: it has no counter
    and no saved position yet. *)
Record NetworkNode : Type := mkNetworkNode {
  n_id : nat;
  n_x : Q;
  n_y : Q;
  n_state : State
}.

Section Network.

Variable rng : nat -> Q.

(** The loop [for (let i = 0; i < nodeCount; i++)] that pushes the nodes,
    with [count] iterations left: [x] is drawn before [y]. *)
Fixpoint nodeLoop (count i p : nat) : list NetworkNode * nat :=
  match count with
  | O => ([], p)
  | S count' =>
      let nd := mkNetworkNode i (rng p * (5 # 10) + (1 # 10))
                              (rng (S p) * (5 # 10) + (1 # 10)) healthy in
      let (rest, p1) := nodeLoop count' (S i) (S (S p)) in
      (nd :: rest, p1)
  end.

(** [createFallbackNetwork()] when the next draw is at position [p]:
    [simulation.nodes], [simulation.edges] and the position of the draw
    that follows. *)
Definition createFallbackNetwork (p : nat)
  : list NetworkNode * list Edge * nat :=
  let (ns, p1) := nodeLoop nodeCount 0 p in
  let (es, p2) := edgeLoop rng nodeCount nodeCount 0 p1 in
  (ns, es, p2).

End Network.

(** *** [updateAnimations] and [animationLoop] *)

(** One pass of the loop over the entries of [nodeAnimations]:
    [simulation.nodes.find(n => n.id === nodeId)] is the first node with
    that id; an entry whose node is missing, or whose animation is
    complete, is put on the removal list. *)
Definition animateEntry (now : Z) (acc : list Node * list nat)
    (entry : nat * Animation) : list Node * list nat :=
  match list_find (fun n => id n = entry.1) acc.1 with
  | None => (acc.1, acc.2 ++ [entry.1])
  | Some (k, node) =>
      let r := updateAnimation now entry.2 node in
      (<[k := r.1]> acc.1, if r.2 then acc.2 ++ [entry.1] else acc.2)
  end.

(** [updateAnimations()] at time [now], visiting the entries in the given
    order, then deleting the entries on the removal list. *)
Definition updateAnimationsIn (now : Z) (entries : list (nat * Animation))
    (ns : list Node) (anims : gmap nat Animation)
  : list Node * gmap nat Animation :=
  let r := fold_left (animateEntry now) entries (ns, []) in
  (r.1, foldr delete anims r.2).

(** [updateAnimations()] on the map itself; the entries of the map are
    visited in its enumeration order. *)
Definition updateAnimations (now : Z) (ns : list Node)
    (anims : gmap nat Animation) : list Node * gmap nat Animation :=
  updateAnimationsIn now (map_to_list anims) ns anims.

(** The effect of [animationLoop()] on the nodes and the animations: a
    pass of [updateAnimations] while the run is active or an animation is
    in flight, nothing otherwise. *)
Definition animationLoop (now : Z) (w : World) : World :=
  let sim := simulation w in
  if running sim || bool_decide (0 < size (nodeAnimations w))%nat then
    let r := updateAnimations now (nodes sim) (nodeAnimations w) in
    mkWorld
      (mkSimulation (running sim) r.1 (edges sim) (step sim) (day sim)
                    (backendConnected sim) (infectionRate sim)
                    (recoveryRate sim) (deathRate sim) (quarantineRate sim))
      r.2 (realtimeChart w)
  else w.

(** *** [stopSimulation] *)


(** *** [startFallbackSimulation] *)

(** The values read from the form: [parseInt] of the initial number of
    infected and [parseFloat] of the four rates. *)
Record StartInputs : Type := mkStartInputs {
  in_initialInfected : Z;
  in_infectionRate : Q;
  in_recoveryRate : Q;
  in_deathRate : Q;
  in_quarantineRate : Q
}.

(** [node.state = 'healthy'; node.infectionTime = 0;
     node.quarantineTime = 0] *)
Definition clearNode (n : Node) : Node :=
  set_quarantineTime 0 (set_infectionTime 0 (set_state healthy n)).

Section Start.

Variable rng : nat -> Q.

(** The loop [for (let i = 0; i < initialInfected; i++)] with [fuel]
    iterations left.  The index is drawn afresh each time, so the same node
    can be drawn twice; writing to [simulation.nodes[randomIndex]] throws
    when the array is empty. *)
Fixpoint seedLoop (fuel : nat) (ns : list Node) (p : nat)
  : option (list Node * nat) :=
  match fuel with
  | O => Some (ns, p)
  | S fuel' =>
      let randomIndex := randomBelow rng (length ns) p in
      match ns !! randomIndex with
      | Some n => seedLoop fuel' (<[randomIndex := infect n]> ns) (S p)
      | None => None
      end
  end.

(** The page state when [startFallbackSimulation] reaches its call of
    [animationLoop()]: nodes cleared and seeded, run flagged as running,
    counters and rates stored, chart cleared. *)
Definition seedSimulation (inp : StartInputs) (w : World) (p : nat)
  : option (World * nat) :=
  let sim := simulation w in
  match seedLoop (Z.to_nat (in_initialInfected inp))
                 (map clearNode (nodes sim)) p with
  | None => None
  | Some (ns1, p1) =>
      Some (mkWorld
              (mkSimulation true ns1 (edges sim) 0 0 (backendConnected sim)
                            (in_infectionRate inp) (in_recoveryRate inp)
                            (in_deathRate inp) (in_quarantineRate inp))
              (nodeAnimations w) (clear (realtimeChart w)),
            p1)
  end.

(** [startFallbackSimulation()] at time [now]: the seeding, then
    [animationLoop()], then the first invocation of
    [fallbackSimulationLoop()]. *)
Definition startFallbackSimulation (now : Z) (inp : StartInputs) (w : World)
    (p : nat) : option (World * nat) :=
  match seedSimulation inp w p with
  | None => None
  | Some (w1, p1) => fallbackSimulationLoop rng now (animationLoop now w1) p1
  end.

End Start.

(** *** Predicates used to state the further properties *)

(** Node [k] of the array has id [k], as in a network built by
    [createFallbackNetwork]. *)
Definition idsAreIndices (ns : list Node) : Prop :=
  forall k n, ns !! k = Some n -> id n = k.

(** The run is active and local: [fallbackSimulationLoop] does step. *)
Definition stepping (w : World) : Prop :=
  running (simulation w) = true /\ backendConnected (simulation w) = false.

(** A coordinate lies strictly inside an interval of the quarantine
    rectangle. *)
Definition strictlyBetween (lo hi v : Q) : Prop := (lo < v)%Q /\ (v < hi)%Q.

(** The telemetry points of the steps [s + 1 .. s + n] of a run over a
    population of [size] nodes carry these timestamps. *)
Definition stepStamps (s : Z) (n : nat) : list JsNum :=
  map (fun i => Some (s + 1 + Z.of_nat i)) (seq 0 n).

(** The test [progress >= 1] of [updateAnimations] for an animation. *)
Definition animationDone (now : Z) (anim : Animation) : bool :=
  Qle_bool 1 (animProgress anim now).

(** Two node objects that agree on everything the epidemic reads: id,
    compartment and both counters. *)
Definition sameCompartment (n n1 : Node) : Prop :=
  id n1 = id n /\ state n1 = state n /\
  infectionTime n1 = infectionTime n /\ quarantineTime n1 = quarantineTime n.

(** A node as the seeding of [startFallbackSimulation] leaves it: counters
    at zero, Healthy or Infected. *)
Definition freshlySeeded (n : Node) : Prop :=
  infectionTime n = 0 /\ quarantineTime n = 0 /\
  (state n = healthy \/ state n = infected).

(** A node after the first step of a run: still Healthy with counter 0, or
    Infected with counter 1. *)
Definition afterFirstStep (n : Node) : Prop :=
  (state n = healthy /\ infectionTime n = 0)
  \/ (state n = infected /\ infectionTime n = 1).

(** *** Further example states *)

(** One running node whose only edge names a node that does not exist. *)
Definition danglingWorld : World :=
  mkWorld
    (mkSimulation true [exampleNode 0 infected 0 0] [mkEdge 0 1] 0 0 false
                  1 1 1 1)
    ∅ (newChart None).

(** [chainWorld] with an infection rate of 0. *)
Definition zeroRateWorld : World :=
  mkWorld
    (mkSimulation true (nodes (simulation chainWorld))
                  (edges (simulation chainWorld)) 0 0 false 0 1 1 1)
    ∅ (newChart None).

Definition zeroRateWorld2 : World :=
  Eval vm_compute in
    match runSteps rng0 [0; 1000] zeroRateWorld 0 with
    | Some (w, _) => w
    | None => zeroRateWorld
    end.

(** One node infected at counter 0; only the quarantine rate is 1. *)
Definition dayZeroWorld : World :=
  mkWorld
    (mkSimulation true [exampleNode 0 infected 0 0] [] 0 0 false 0 0 0 1)
    ∅ (newChart None).

Definition sevenSteps : list Z := [0; 1000; 2000; 3000; 4000; 5000; 6000].

Definition dayZeroWorld7 : World :=
  Eval vm_compute in
    match runSteps rng0 sevenSteps dayZeroWorld 0 with
    | Some (w, _) => w
    | None => dayZeroWorld
    end.

Definition dayZeroWorld8 : World :=
  Eval vm_compute in
    match fallbackSimulationLoop rng0 7000 dayZeroWorld7 0 with
    | Some (w, _) => w
    | None => dayZeroWorld7
    end.

Definition weekWorld1 : World :=
  Eval vm_compute in
    match fallbackSimulationLoop rng0 0 weekWorld 0 with
    | Some (w, _) => w
    | None => weekWorld
    end.

(** A stopped page holding three nodes left over from a previous run, and
    the same page with the backend flagged as connected. *)
Definition idleWorld : World :=
  mkWorld
    (mkSimulation false
       [exampleNode 0 recovered 20 3; exampleNode 1 deceased 16 0;
        exampleNode 2 healthy 0 0]
       [mkEdge 0 1; mkEdge 1 2] 30 10 false 1 1 1 1)
    ∅ (newChart None).

Definition connectedWorld : World :=
  mkWorld
    (mkSimulation false (nodes (simulation idleWorld))
                  (edges (simulation idleWorld)) 30 10 true 1 1 1 1)
    ∅ (newChart None).

(** A page with no node at all. *)
Definition emptyWorld : World :=
  mkWorld (mkSimulation false [] [] 0 0 false 1 1 1 1) ∅ (newChart None).

(** Two initial infections asked for, infection rate 1, other rates 0. *)
Definition exampleInputs : StartInputs := mkStartInputs 2 1 0 0 0.

Definition seededWorld : World :=
  Eval vm_compute in
    match seedSimulation rng0 exampleInputs idleWorld 0 with
    | Some (w, _) => w
    | None => idleWorld
    end.

Definition startedWorld : World :=
  Eval vm_compute in
    match startFallbackSimulation rng0 0 exampleInputs idleWorld 0 with
    | Some (w, _) => w
    | None => idleWorld
    end.

Definition startedConnectedWorld : World :=
  Eval vm_compute in
    match startFallbackSimulation rng0 0 exampleInputs connectedWorld 0 with
    | Some (w, _) => w
    | None => connectedWorld
    end.

(** A run started from the form: [startFallbackSimulation] at time [now],
    then one invocation of the loop per timestamp in [nows]. *)
Definition startThenRun (rng : nat -> Q) (now : Z) (inp : StartInputs)
    (w : World) (p : nat) (nows : list Z) : option (World * nat) :=
  match startFallbackSimulation rng now inp w p with
  | Some (w1, p1) => runSteps rng nows w1 p1
  | None => None
  end.

(** Draws in [0, 1): 0.1 at positions 0, 8 and 10, 0.9 elsewhere. *)
Definition rngLate : nat -> Q :=
  fun k => if (k =? 0)%nat || (k =? 8)%nat || (k =? 10)%nat
           then 1 # 10 else 9 # 10.

(** A stopped page with a single node and no edge. *)
Definition soloWorld : World :=
  mkWorld (mkSimulation false [exampleNode 0 healthy 0 0] [] 0 0 false 0 0 0 0)
          ∅ (newChart None).

(** One initial infection, every rate 0.5. *)
Definition halfInputs : StartInputs :=
  mkStartInputs 1 (1 # 2) (1 # 2) (1 # 2) (1 # 2).

Definition thirteenSteps : list Z :=
  [1000; 2000; 3000; 4000; 5000; 6000; 7000; 8000; 9000; 10000; 11000;
   12000; 13000].

(** [soloWorld] after a start and thirteen more invocations (fourteen
    steps), and after the fifteenth step, with the draws [rngLate]. *)
Definition soloWorld14 : World :=
  Eval vm_compute in
    match startThenRun rngLate 0 halfInputs soloWorld 0 thirteenSteps with
    | Some (w, _) => w
    | None => soloWorld
    end.

Definition soloWorld15 : World :=
  Eval vm_compute in
    match fallbackSimulationLoop rngLate 14000 soloWorld14 8 with
    | Some (w, _) => w
    | None => soloWorld14
    end.

(** An animation of node 0 from the middle of the page to its slot. *)
Definition exampleAnimation : Animation :=
  mkAnimation (1 # 2) (1 # 2) (7125 # 10000) (7125 # 10000) 0
              ANIMATION_DURATION.

(** * Properties *)

(** ** Booleans on rationals *)

Lemma Qltb_true (a b : Q) : Qltb a b = true <-> (a < b)%Q.
Proof.
  unfold Qltb. rewrite negb_true_iff.
  split; intros H.
  - apply Qnot_le_lt. intros Hle. apply Qle_bool_iff in Hle. congruence.
  - destruct (Qle_bool b a) eqn:E; [|reflexivity].
    apply Qle_bool_iff in E. exfalso. apply (Qlt_not_le _ _ H E).
Qed.

(** ** Node setters *)

Lemma state_infect n : state (infect n) = infected.
Proof. reflexivity. Qed.

Lemma infectionTime_infect n : infectionTime (infect n) = 0.
Proof. reflexivity. Qed.

(** ** Transmission *)

Section TransmissionFacts.

Variable rng : nat -> Q.

Lemma transmitted_refl n : transmitted n n.
Proof. by left. Qed.

Lemma transmitted_trans n n1 n2 :
  transmitted n n1 -> transmitted n1 n2 -> transmitted n n2.
Proof.
  intros [-> | [Hh ->]] [-> | [Hh2 ->]]; unfold transmitted; auto.
Qed.

Lemma transmits_healthy s t :
  transmits s t = true -> state s <> healthy -> state t = healthy.
Proof.
  unfold transmits. intros H Hs.
  repeat case_bool_decide; simpl in H; congruence.
Qed.

Lemma Forall2_transmitted_insert (ns : list Node) i n :
  ns !! i = Some n -> state n = healthy ->
  Forall2 transmitted ns (<[i := infect n]> ns).
Proof.
  intros Hi Hh. apply Forall2_same_length_lookup_2.
  - by rewrite length_insert.
  - intros j a b Ha Hb. destruct (decide (i = j)) as [-> | Hne].
    + rewrite list_lookup_insert_eq in Hb by (by eapply lookup_lt_Some).
      right. naive_solver.
    + rewrite list_lookup_insert_ne in Hb by done. left. congruence.
Qed.

Lemma Forall2_transmitted_refl (ns : list Node) : Forall2 transmitted ns ns.
Proof. apply Forall_Forall2_diag, Forall_forall. intros; by left. Qed.

Lemma transmitEdge_transmitted rate e ns p ns1 p1 :
  transmitEdge rng rate e ns p = Some (ns1, p1) ->
  Forall2 transmitted ns ns1.
Proof.
  unfold transmitEdge.
  destruct (ns !! source e) as [s|] eqn:Hs; [|done].
  destruct (ns !! target e) as [t|] eqn:Ht; [|done].
  destruct (transmits s t) eqn:Htr.
  - destruct (Qltb (rng p) rate).
    + case_bool_decide as Hh; intros [= <- <-].
      * by apply Forall2_transmitted_insert.
      * apply Forall2_transmitted_insert; [done|].
        by eapply transmits_healthy.
    + intros [= <- <-]. apply Forall2_transmitted_refl.
  - intros [= <- <-]. apply Forall2_transmitted_refl.
Qed.

Lemma Forall2_transmitted_trans (l1 l2 l3 : list Node) :
  Forall2 transmitted l1 l2 -> Forall2 transmitted l2 l3 ->
  Forall2 transmitted l1 l3.
Proof.
  intros H12. revert l3. induction H12; intros l3 H23.
  - by inversion H23.
  - inversion H23; subst. constructor; [by eapply transmitted_trans|auto].
Qed.

Lemma transmission_transmitted rate es ns p ns1 p1 :
  transmission rng rate es ns p = Some (ns1, p1) ->
  Forall2 transmitted ns ns1.
Proof.
  revert ns p. induction es as [|e es IH]; intros ns p; simpl.
  - intros [= <- <-]. apply Forall2_transmitted_refl.
  - destruct (transmitEdge rng rate e ns p) as [[ns' p']|] eqn:He; [|done].
    intros Hrest. eapply Forall2_transmitted_trans.
    + by eapply transmitEdge_transmitted.
    + by eapply IH.
Qed.

(** The transmission loop completes when every edge is in range. *)
Lemma transmitEdge_total rate e (ns : list Node) p :
  (source e < length ns)%nat -> (target e < length ns)%nat ->
  exists ns1 p1, transmitEdge rng rate e ns p = Some (ns1, p1)
                 /\ length ns1 = length ns.
Proof.
  intros Hs Ht. unfold transmitEdge.
  destruct (lookup_lt_is_Some_2 ns _ Hs) as [s ->].
  destruct (lookup_lt_is_Some_2 ns _ Ht) as [t ->].
  destruct (transmits s t); [|by eauto].
  destruct (Qltb (rng p) rate); [|by eauto].
  case_bool_decide; eexists _, _; (split; [done|by rewrite length_insert]).
Qed.

Lemma transmission_total rate es (ns : list Node) p :
  Forall (fun e => (source e < length ns)%nat
                   /\ (target e < length ns)%nat) es ->
  exists ns1 p1, transmission rng rate es ns p = Some (ns1, p1).
Proof.
  revert ns p. induction es as [|e es IH]; intros ns p Hall; simpl.
  - eauto.
  - inversion Hall as [|? ? [Hs Ht] Hrest]; subst.
    destruct (transmitEdge_total rate e ns p Hs Ht) as (ns1 & p1 & -> & Hlen).
    apply IH. by rewrite Hlen.
Qed.

End TransmissionFacts.

(** ** Progression *)

Section ProgressionFacts.

Variable rng : nat -> Q.

Ltac unfold_St :=
  unfold mbind, mret, St_bind, St_ret, bind, ret, random, startAnim,
    endAnim, startQuarantineAnimation in *.

Lemma quarantineCheck_cases now qRate old n e :
  let n1 := (quarantineCheck rng now qRate old n e).1 in
  infectionTime n1 = infectionTime n /\
  (n1 = n \/ (state n1 = quarantined /\ 7 < infectionTime n)).
Proof.
  unfold quarantineCheck. unfold_St.
  destruct (7 <? infectionTime n) eqn:H7; simpl; [|by auto].
  apply Z.ltb_lt in H7.
  destruct (Qltb _ _); simpl; [|by auto].
  destruct (decide _); simpl; [|by auto].
  destruct (_ || _); simpl; auto.
Qed.

Lemma deathRecoveryCheck_cases dRate rRate n e :
  let n1 := (deathRecoveryCheck rng dRate rRate n e).1 in
  infectionTime n1 = infectionTime n /\
  (n1 = n \/
   ((state n1 = deceased \/ state n1 = recovered) /\ 14 < infectionTime n)).
Proof.
  unfold deathRecoveryCheck. unfold_St.
  destruct (14 <? infectionTime n) eqn:H14; simpl; [|by auto].
  apply Z.ltb_lt in H14.
  destruct (Qltb _ _); simpl; [by auto|].
  destruct (Qltb _ _); simpl; auto.
Qed.

Lemma quarantineProgress_cases now rRate old n e :
  let n1 := (quarantineProgress rng now rRate old n e).1 in
  infectionTime n1 = infectionTime n /\
  quarantineTime n1 = quarantineTime n + 1 /\
  (state n1 = state n \/ (state n1 = recovered /\ 14 < quarantineTime n1)).
Proof.
  unfold quarantineProgress. unfold_St. simpl.
  destruct (14 <? quarantineTime n + 1) eqn:H14; simpl; [|by auto].
  apply Z.ltb_lt in H14.
  destruct (Qltb _ _); simpl; [|by auto].
  destruct (decide _); simpl; auto.
Qed.

Lemma progressNode_progressed now sim n e :
  progressed n (progressNode rng now sim n e).1.
Proof.
  unfold progressed, progressNode.
  destruct (state n) eqn:Hst; try reflexivity.
  - unfold mbind, St_bind, bind.
    destruct (quarantineCheck _ _ _ _ _ _) as [n1 e1] eqn:Hq.
    pose proof (quarantineCheck_cases now (quarantineRate sim) infected
                  (set_infectionTime (infectionTime n + 1) n) e) as Hc.
    rewrite Hq in Hc. simpl in Hc.
    pose proof (deathRecoveryCheck_cases (deathRate sim) (recoveryRate sim)
                  n1 e1) as Hd.
    simpl in Hd. destruct Hc as [Ht Hc], Hd as [Ht' Hd].
    split; [congruence|].
    destruct Hd as [-> | [Hd H14]].
    + destruct Hc as [-> | [Hc H7]]; [by left|].
      right; left. split; [done|lia].
    + right; right. split; [done|lia].
  - pose proof (quarantineProgress_cases now (recoveryRate sim) quarantined
                  n e) as Hc.
    simpl in Hc. rewrite Hst in Hc. tauto.
Qed.

Lemma progression_progressed now sim ns e :
  Forall2 progressed ns (progression rng now sim ns e).1.
Proof.
  revert e. induction ns as [|n ns IH]; intros e; simpl.
  - constructor.
  - unfold mbind, St_bind, bind, mret, St_ret, ret.
    pose proof (progressNode_progressed now sim n e) as Hn.
    destruct (progressNode _ _ _ _ _) as [n1 e1].
    specialize (IH e1).
    destruct (progression _ _ _ _ _) as [ns1 e2].
    by constructor.
Qed.

End ProgressionFacts.

(** ** One invocation and many *)

Section LoopFacts.

Variable rng : nat -> Q.

Lemma Forall2_stepped (l1 l2 l3 : list Node) :
  Forall2 transmitted l1 l2 -> Forall2 progressed l2 l3 ->
  Forall2 stepped l1 l3.
Proof.
  intros H12. revert l3. induction H12; intros l3 H23.
  - inversion H23. constructor.
  - inversion H23; subst. constructor; [by eexists|auto].
Qed.

(** An invocation that does nothing returns the world unchanged; one that
    runs relates every node to its successor by [stepped]. *)
Lemma fallbackSimulationLoop_nodes now w p w1 p1 :
  fallbackSimulationLoop rng now w p = Some (w1, p1) ->
  w1 = w \/ Forall2 stepped (nodes (simulation w)) (nodes (simulation w1)).
Proof.
  unfold fallbackSimulationLoop.
  destruct (negb _ || _); [intros [= <- <-]; by left|].
  destruct (transmission _ _ _ _ _) as [[ns1 q1]|] eqn:Ht; [|done].
  pose proof (progression_progressed rng now (simulation w) ns1
                (mkEnv q1 (nodeAnimations w))) as Hp.
  destruct (progression _ _ _ _ _) as [ns2 env].
  intros [= <- <-]. right. simpl.
  eapply Forall2_stepped; [by eapply transmission_transmitted|done].
Qed.

Lemma Forall2_steppedStar_refl (ns : list Node) : Forall2 steppedStar ns ns.
Proof. apply Forall_Forall2_diag, Forall_forall. intros; constructor. Qed.

Lemma Forall2_steppedStar_step (l1 l2 l3 : list Node) :
  Forall2 stepped l1 l2 -> Forall2 steppedStar l2 l3 ->
  Forall2 steppedStar l1 l3.
Proof.
  intros H12. revert l3. induction H12; intros l3 H23.
  - inversion H23. constructor.
  - inversion H23; subst. constructor; [by econstructor|auto].
Qed.

Lemma runSteps_nodes nows w p w1 p1 :
  runSteps rng nows w p = Some (w1, p1) ->
  Forall2 steppedStar (nodes (simulation w)) (nodes (simulation w1)).
Proof.
  revert w p. induction nows as [|now rest IH]; intros w p; simpl.
  - intros [= <- <-]. apply Forall2_steppedStar_refl.
  - destruct (fallbackSimulationLoop rng now w p) as [[w' p']|] eqn:Hs;
      [|done].
    intros Hrest. apply IH in Hrest.
    destruct (fallbackSimulationLoop_nodes _ _ _ _ _ Hs) as [-> | Hst];
      [done|].
    by eapply Forall2_steppedStar_step.
Qed.

(** The loop returns whenever the edges are in range. *)
Lemma fallbackSimulationLoop_total now w p :
  edgesInRange w ->
  exists w1 p1, fallbackSimulationLoop rng now w p = Some (w1, p1).
Proof.
  intros Hr. unfold fallbackSimulationLoop.
  destruct (negb _ || _); [by eauto|].
  destruct (transmission_total rng (infectionRate (simulation w)) _ _ p Hr)
    as (ns1 & q1 & ->).
  destruct (progression _ _ _ _ _). eauto.
Qed.

End LoopFacts.

(** ** Per-node consequences of [stepped] *)

Lemma stepped_terminal n n2 :
  stepped n n2 -> state n = deceased \/ state n = recovered -> n2 = n.
Proof.
  intros (n1 & Ht & Hp) Hs.
  assert (n1 = n) as ->.
  { destruct Ht as [-> | [Hh _]]; [done|]. destruct Hs; congruence. }
  unfold progressed in Hp. destruct Hs as [Hs | Hs]; by rewrite Hs in Hp.
Qed.

Lemma steppedStar_terminal n n2 :
  steppedStar n n2 -> state n = deceased \/ state n = recovered -> n2 = n.
Proof.
  induction 1 as [|n n1 n2 Hs _ IH]; intros Hst; [done|].
  apply stepped_terminal in Hs as ->; auto.
Qed.

Lemma stepped_from_healthy n n2 :
  stepped n n2 -> state n = healthy ->
  n2 = n \/ (state n2 = infected /\ infectionTime n2 = 1).
Proof.
  intros (n1 & Ht & Hp) Hh. destruct Ht as [-> | [_ ->]].
  - left. unfold progressed in Hp. by rewrite Hh in Hp.
  - right. unfold progressed in Hp. simpl in Hp.
    destruct Hp as [Ht Hp]. split; [|done]. rewrite Ht in Hp.
    destruct Hp as [? | [[_ ?] | [_ ?]]]; [done|lia|lia].
Qed.

Lemma stepped_healthy_inv n n2 :
  stepped n n2 -> state n2 = healthy -> state n = healthy.
Proof.
  intros (n1 & Ht & Hp) Hh.
  destruct (decide (state n = healthy)) as [|Hne]; [done|].
  destruct Ht as [-> | [? _]]; [|done].
  unfold progressed in Hp. destruct (state n) eqn:Hs; try done.
  - destruct Hp as [_ [? | [[? _] | [[?|?] _]]]]; congruence.
  - subst. congruence.
  - destruct Hp as (_ & _ & [? | [? _]]); congruence.
  - subst. congruence.
Qed.

Lemma stepped_quarantine_entry n n2 :
  stepped n n2 -> state n2 = quarantined -> state n <> quarantined ->
  state n = infected /\ infectionTime n2 = infectionTime n + 1
  /\ 7 < infectionTime n2.
Proof.
  intros (n1 & Ht & Hp) Hq Hnq. destruct Ht as [-> | [Hh ->]].
  - unfold progressed in Hp. destruct (state n) eqn:Hs; try congruence.
    destruct Hp as [Ht [? | [[_ ?] | [[?|?] _]]]]; try congruence. done.
  - unfold progressed in Hp. simpl in Hp. destruct Hp as [Ht Hp].
    rewrite Ht in Hp.
    destruct Hp as [? | [[_ ?] | [_ ?]]]; [congruence|lia|lia].
Qed.

Lemma stepped_quarantine_exit n n2 :
  stepped n n2 -> state n = quarantined -> state n2 = recovered ->
  quarantineTime n2 = quarantineTime n + 1 /\ 14 < quarantineTime n2.
Proof.
  intros (n1 & Ht & Hp) Hq Hr.
  destruct Ht as [-> | [Hh _]]; [|congruence].
  unfold progressed in Hp. rewrite Hq in Hp.
  destruct Hp as (_ & Ht & [? | [_ ?]]); [congruence|done].
Qed.

(** ** Counting *)

Lemma countState_cons s n ns :
  countState s (n :: ns)
  = ((if decide (state n = s) then 1 else 0) + countState s ns)%nat.
Proof.
  unfold countState. rewrite filter_cons. by destruct (decide _).
Qed.

Lemma countState_partition ns :
  (countState healthy ns + countState infected ns + countState recovered ns
   + countState quarantined ns + countState deceased ns)%nat = length ns.
Proof.
  induction ns as [|n ns IH]; [done|].
  rewrite !countState_cons. simpl length.
  destruct (state n); repeat (destruct (decide _); try done); lia.
Qed.

Lemma countState_healthy_mono (l1 l2 : list Node) :
  Forall2 stepped l1 l2 ->
  (countState healthy l2 <= countState healthy l1)%nat.
Proof.
  induction 1 as [|n n2 l1 l2 Hs _ IH]; [done|].
  rewrite !countState_cons.
  destruct (decide (state n2 = healthy)) as [Hh|]; [|lia].
  apply (stepped_healthy_inv _ _ Hs) in Hh.
  destruct (decide (state n = healthy)); [lia|done].
Qed.

Lemma statsTotal_computeStats ns :
  statsTotal (computeStats ns) = Some (Z.of_nat (length ns)).
Proof.
  unfold statsTotal, computeStats. simpl. f_equal.
  rewrite <- (countState_partition ns). lia.
Qed.

(** ** Claims about the local step *)

(** C1 (evaluation of the code where the claim fails).  A node infected for
    14 steps, with quarantine and death rates 1: in one invocation the
    quarantine check moves it to Quarantined (resetting [quarantineTime]
    and registering the quarantine animation), and the death/recovery check
    of the same invocation, which tests only [infectionTime > 14], then moves
    it to Deceased.  The death/recovery check is therefore effective although
    the quarantine check already moved the node out of Infected. *)
Theorem C1_quarantined_then_deceased_same_step :
  let n1 := set_infectionTime 15 (exampleNode 0 infected 14 0) in
  let r := quarantineCheck rng0 0 1 infected n1 (mkEnv 0 ∅) in
  state r.1 = quarantined /\
  is_Some (anims r.2 !! 0%nat) /\
  state (deathRecoveryCheck rng0 1 0 r.1 r.2).1 = deceased /\
  exists w1 p1,
    fallbackSimulationLoop rng0 0 lateWorld 0 = Some (w1, p1) /\
    state <$> nodes (simulation w1) !! 0%nat = Some deceased /\
    is_Some (nodeAnimations w1 !! 0%nat).
Proof.
  cbv zeta. split; [reflexivity|]. split; [by vm_compute; eexists|].
  split; [reflexivity|].
  destruct (fallbackSimulationLoop rng0 0 lateWorld 0) as [[w1 p1]|] eqn:E;
    [|by vm_compute in E].
  exists w1, p1. split; [done|].
  vm_compute in E. injection E as <- <-. split; [reflexivity|].
  by vm_compute; eexists.
Qed.

(** C5 (evaluation of the code where the claim fails).  A run started from
    the form on a single node, every rate 0.5: the node is seeded Infected,
    its quarantine draws of steps 8 to 14 fail, and it reaches step 15
    Infected with [infectionTime = 14].  In the fifteenth invocation the
    quarantine check moves it to Quarantined with [quarantineTime = 0], and
    the death/recovery check of the same invocation then moves it to
    Recovered: a node that has just become Quarantined becomes Recovered
    while its [quarantineTime] is 0, not above 14. *)
Theorem C5_recovered_from_quarantine_at_counter_zero :
  startThenRun rngLate 0 halfInputs soloWorld 0 thirteenSteps
  = Some (soloWorld14, 8%nat) /\
  nodes (simulation soloWorld14) !! 0%nat = Some (exampleNode 0 infected 14 0)
  /\
  (let r := quarantineCheck rngLate 14000 (1 # 2) infected
              (set_infectionTime 15 (exampleNode 0 infected 14 0))
              (mkEnv 8 ∅) in
   state r.1 = quarantined /\ quarantineTime r.1 = 0 /\
   let r2 := deathRecoveryCheck rngLate (1 # 2) (1 # 2) r.1 r.2 in
   state r2.1 = recovered /\ quarantineTime r2.1 = 0) /\
  fallbackSimulationLoop rngLate 14000 soloWorld14 8
  = Some (soloWorld15, 11%nat) /\
  exists n15,
    nodes (simulation soloWorld15) !! 0%nat = Some n15 /\
    state n15 = recovered /\ quarantineTime n15 = 0 /\
    ~ 14 < quarantineTime n15.
Proof.
  split; [vm_compute; reflexivity|].
  split; [vm_compute; reflexivity|].
  split; [cbv zeta; repeat split; reflexivity|].
  split; [vm_compute; reflexivity|].
  eexists. split; [vm_compute; reflexivity|].
  split; [reflexivity|]. split; [reflexivity|]. simpl. lia.
Qed.

Section StepClaims.

Variable rng : nat -> Q.

Lemma step_lookup now w p w1 p1 k n n1 :
  fallbackSimulationLoop rng now w p = Some (w1, p1) ->
  nodes (simulation w) !! k = Some n ->
  nodes (simulation w1) !! k = Some n1 ->
  n1 = n \/ stepped n n1.
Proof.
  intros Hs Hn Hn1.
  destruct (fallbackSimulationLoop_nodes rng _ _ _ _ _ Hs) as [-> | HF].
  - left. congruence.
  - right. by eapply Forall2_lookup_lr.
Qed.

Lemma step_length now w p w1 p1 :
  fallbackSimulationLoop rng now w p = Some (w1, p1) ->
  length (nodes (simulation w1)) = length (nodes (simulation w)).
Proof.
  intros Hs.
  destruct (fallbackSimulationLoop_nodes rng _ _ _ _ _ Hs) as [-> | HF];
    [done|]. symmetry. by eapply Forall2_length.
Qed.

(** C3.  After any number of invocations of the local loop, the five
    counts computed from the population (healthy, infected, recovered,
    quarantined, deceased) sum to the population size, which the run
    never changes. *)
Theorem C3_counts_sum_to_population nows w p w1 p1 :
  runSteps rng nows w p = Some (w1, p1) ->
  let ns := nodes (simulation w1) in
  length ns = length (nodes (simulation w)) /\
  (countState healthy ns + countState infected ns + countState recovered ns
   + countState quarantined ns + countState deceased ns)%nat
  = length (nodes (simulation w)) /\
  statsTotal (computeStats ns)
  = Some (Z.of_nat (length (nodes (simulation w)))).
Proof.
  intros Hr ns.
  assert (length ns = length (nodes (simulation w))) as Hlen.
  { symmetry. eapply Forall2_length, runSteps_nodes, Hr. }
  rewrite <- Hlen. split; [done|]. split.
  - apply countState_partition.
  - apply statsTotal_computeStats.
Qed.

(** C4.  Deceased and Recovered are absorbing: a node that is Deceased or
    Recovered is still in that compartment (and is the same node object,
    field for field) after any number of invocations of the local loop. *)
Theorem C4_terminal_compartments_absorbing nows w p w1 p1 k n :
  runSteps rng nows w p = Some (w1, p1) ->
  nodes (simulation w) !! k = Some n ->
  state n = deceased \/ state n = recovered ->
  exists n1, nodes (simulation w1) !! k = Some n1
             /\ state n1 = state n /\ n1 = n.
Proof.
  intros Hr Hn Hs.
  pose proof (runSteps_nodes rng _ _ _ _ _ Hr) as HF.
  destruct (Forall2_lookup_l _ _ _ _ _ HF Hn) as (n1 & Hn1 & Hst).
  apply steppedStar_terminal in Hst as ->; [|done]. eauto.
Qed.

(** X23.  Between the start and the end of one invocation of the local
    loop: a node Healthy at the start never ends Quarantined; a node that
    ends Quarantined without having started so was Infected at the start
    and its incremented [infectionTime] exceeds 7; a node Quarantined at the
    start that ends Recovered has an incremented [quarantineTime] that
    exceeds 14.  (A node that enters quarantine and recovers inside one
    invocation starts it Infected and is not covered by the last part.) *)
Theorem step_quarantine_entry_and_exit now w p w1 p1 k n n1 :
  fallbackSimulationLoop rng now w p = Some (w1, p1) ->
  nodes (simulation w) !! k = Some n ->
  nodes (simulation w1) !! k = Some n1 ->
  (state n = healthy -> state n1 <> quarantined) /\
  (state n1 = quarantined -> state n <> quarantined ->
   state n = infected /\ infectionTime n1 = infectionTime n + 1
   /\ 7 < infectionTime n1) /\
  (state n = quarantined -> state n1 = recovered ->
   quarantineTime n1 = quarantineTime n + 1 /\ 14 < quarantineTime n1).
Proof.
  intros Hs Hn Hn1.
  destruct (step_lookup _ _ _ _ _ _ _ _ Hs Hn Hn1) as [-> | Hst].
  - repeat split; congruence.
  - split; [|split].
    + intros Hh Hq.
      destruct (stepped_from_healthy _ _ Hst Hh) as [-> | [? _]];
        congruence.
    + intros Hq Hnq. by apply stepped_quarantine_entry.
    + intros Hq Hr. by apply stepped_quarantine_exit.
Qed.

(** C10.  The Healthy count never grows: after one invocation of the
    local loop the number of Healthy nodes is at most what it was, and a
    node that is Healthy afterwards was Healthy before. *)
Theorem C10_healthy_count_non_increasing now w p w1 p1 :
  fallbackSimulationLoop rng now w p = Some (w1, p1) ->
  (countState healthy (nodes (simulation w1))
   <= countState healthy (nodes (simulation w)))%nat /\
  forall k n n1,
    nodes (simulation w) !! k = Some n ->
    nodes (simulation w1) !! k = Some n1 ->
    state n1 = healthy -> state n = healthy.
Proof.
  intros Hs. split.
  - destruct (fallbackSimulationLoop_nodes rng _ _ _ _ _ Hs) as [-> | HF];
      [done|]. by apply countState_healthy_mono.
  - intros k n n1 Hn Hn1 Hh.
    destruct (step_lookup _ _ _ _ _ _ _ _ Hs Hn Hn1) as [-> | Hst];
      [done|]. by eapply stepped_healthy_inv.
Qed.

End StepClaims.

(** ** In-place updates within a step *)

Lemma progressed_fresh n n2 :
  progressed n n2 -> state n = infected -> infectionTime n = 0 ->
  state n2 = infected /\ infectionTime n2 = 1.
Proof.
  unfold progressed. intros Hp Hs Ht. rewrite Hs, Ht in Hp.
  destruct Hp as [Ht2 Hp]. split; [|done]. rewrite Ht2 in Hp.
  destruct Hp as [? | [[_ ?] | [_ ?]]]; [done|lia|lia].
Qed.

Lemma transmits_infected_healthy s t :
  state s = infected -> state t = healthy -> transmits s t = true.
Proof.
  intros Hs Ht. unfold transmits.
  rewrite (bool_decide_eq_true_2 _ Hs), (bool_decide_eq_true_2 _ Ht).
  reflexivity.
Qed.

(** An infected source passes the infection to a healthy target when the
    draw succeeds, and the array is updated in place. *)
Lemma transmitEdge_infects rng rate a b (ns : list Node) p na nb :
  ns !! a = Some na -> state na = infected ->
  ns !! b = Some nb -> state nb = healthy ->
  Qltb (rng p) rate = true ->
  transmitEdge rng rate (mkEdge a b) ns p
  = Some (<[b := infect nb]> ns, S p).
Proof.
  intros Ha Hsa Hb Hsb Hdraw. unfold transmitEdge. simpl.
  rewrite Ha, Hb, (transmits_infected_healthy _ _ Hsa Hsb), Hdraw.
  rewrite bool_decide_eq_false_2; [done|congruence].
Qed.

(** C2 (amended).  A step of the local loop updates the node array in
    place.  (1) A node that is Healthy when the invocation starts and no
    longer Healthy when it ends is Infected with [infectionTime = 1]: the
    progression loop of the same invocation has already incremented the
    counter that transmission reset to 0.  (2) With edges [a-b] then [b-c],
    [a] Infected, [b] and [c] Healthy and both transmission draws
    succeeding, [c] is Infected at the end of the invocation: it was
    infected by [b], which was itself infected earlier in the same loop. *)
Theorem C2_step_updates_in_place :
  (forall rng now w p w1 p1 k n n1,
     fallbackSimulationLoop rng now w p = Some (w1, p1) ->
     nodes (simulation w) !! k = Some n ->
     nodes (simulation w1) !! k = Some n1 ->
     state n = healthy -> state n1 <> healthy ->
     state n1 = infected /\ infectionTime n1 = 1) /\
  (forall rng now w p a b c na nb nc,
     running (simulation w) = true ->
     backendConnected (simulation w) = false ->
     edges (simulation w) = [mkEdge a b; mkEdge b c] ->
     nodes (simulation w) !! a = Some na -> state na = infected ->
     nodes (simulation w) !! b = Some nb -> state nb = healthy ->
     nodes (simulation w) !! c = Some nc -> state nc = healthy ->
     b <> c ->
     Qltb (rng p) (infectionRate (simulation w)) = true ->
     Qltb (rng (S p)) (infectionRate (simulation w)) = true ->
     exists w1 p1 nc1,
       fallbackSimulationLoop rng now w p = Some (w1, p1) /\
       nodes (simulation w1) !! c = Some nc1 /\
       state nc1 = infected /\ infectionTime nc1 = 1).
Proof.
  split.
  - intros rng now w p w1 p1 k n n1 Hs Hn Hn1 Hh Hnh.
    destruct (step_lookup rng _ _ _ _ _ _ _ _ Hs Hn Hn1) as [-> | Hst];
      [done|].
    destruct (stepped_from_healthy _ _ Hst Hh) as [-> | ?]; done.
  - intros rng now w p a b c na nb nc Hrun Hback Hedges Ha Hsa Hb Hsb Hc Hsc
      Hbc Hd1 Hd2.
    unfold fallbackSimulationLoop. rewrite Hrun, Hback, Hedges. simpl.
    rewrite (transmitEdge_infects rng _ a b _ p na nb) by done.
    assert (b < length (nodes (simulation w)))%nat as Hlb
      by (by eapply lookup_lt_Some).
    assert (c < length (nodes (simulation w)))%nat as Hlc
      by (by eapply lookup_lt_Some).
    rewrite (transmitEdge_infects rng _ b c _ (S p) (infect nb) nc); cycle 1.
    { by apply list_lookup_insert_eq. }
    { done. }
    { by rewrite list_lookup_insert_ne. }
    { done. }
    { done. }
    set (ns1 := <[c:=infect nc]> (<[b:=infect nb]> (nodes (simulation w)))).
    pose proof (progression_progressed rng now (simulation w) ns1
                  (mkEnv (S (S p)) (nodeAnimations w))) as HF.
    destruct (progression _ _ _ _ _) as [ns2 env].
    assert (ns1 !! c = Some (infect nc)) as Hc1.
    { unfold ns1. apply list_lookup_insert_eq. by rewrite length_insert. }
    destruct (Forall2_lookup_l _ _ _ _ _ HF Hc1) as (nc1 & Hnc1 & Hp).
    apply progressed_fresh in Hp; [|done|done].
    eexists _, _, nc1. split; [done|]. simpl. tauto.
Qed.

(** ** The example run *)

Lemma chainWorld_step :
  fallbackSimulationLoop rng0 0 chainWorld 0 = Some (chainWorld1, 3%nat).
Proof. vm_compute. reflexivity. Qed.

(** C2 (as stated) fails.  In [chainWorld] node 2 is Healthy and its only
    neighbour, node 1, is Healthy too when the step starts; after the step
    node 2 is Infected (through node 1, infected over the earlier edge), and
    its counter is 1, not 0. *)
Lemma C2_counterexample : ~ snapshotTransmission /\ ~ snapshotProgression.
Proof.
  split; intros H.
  - destruct (H rng0 0 chainWorld 0%nat chainWorld1 3%nat 2%nat
                (exampleNode 2 healthy 0 0) (exampleNode 2 infected 1 0)
                chainWorld_step eq_refl eq_refl eq_refl eq_refl)
      as (e & j & m & He & Hends & Hm & Hs).
    simpl in He.
    apply elem_of_cons in He as [-> | He].
    { simpl in Hends. destruct Hends as [[? _] | [_ ?]]; discriminate. }
    apply elem_of_cons in He as [-> | He].
    { simpl in Hends. destruct Hends as [[? _] | [<- _]]; [discriminate|].
      simpl in Hm. injection Hm as <-. discriminate. }
    by apply elem_of_nil in He.
  - specialize (H rng0 0 chainWorld 0%nat chainWorld1 3%nat 2%nat
                  (exampleNode 2 healthy 0 0) (exampleNode 2 infected 1 0)
                  chainWorld_step eq_refl eq_refl eq_refl eq_refl).
    discriminate.
Qed.

Lemma C2_witness :
  (state (exampleNode 1 infected 1 0) = infected
   /\ infectionTime (exampleNode 1 infected 1 0) = 1) /\
  exists w1 p1 nc1,
    fallbackSimulationLoop rng0 0 chainWorld 0 = Some (w1, p1) /\
    nodes (simulation w1) !! 2%nat = Some nc1 /\
    state nc1 = infected /\ infectionTime nc1 = 1.
Proof.
  split.
  - apply (proj1 C2_step_updates_in_place rng0 0 chainWorld 0%nat chainWorld1
             3%nat 1%nat (exampleNode 1 healthy 0 0)).
    + vm_compute. reflexivity.
    + reflexivity.
    + reflexivity.
    + reflexivity.
    + simpl. discriminate.
  - apply (proj2 C2_step_updates_in_place rng0 0 chainWorld 0%nat
             0%nat 1%nat 2%nat (exampleNode 0 infected 0 0)
             (exampleNode 1 healthy 0 0) (exampleNode 2 healthy 0 0));
      try reflexivity.
    lia.
Defined.

Lemma C3_witness :
  runSteps rng0 [0; 1000] chainWorld 0 = Some (chainWorld2, 3%nat) /\
  let ns := nodes (simulation chainWorld2) in
  length ns = 6%nat /\
  (countState healthy ns + countState infected ns + countState recovered ns
   + countState quarantined ns + countState deceased ns)%nat = 6%nat /\
  statsTotal (computeStats ns) = Some 6.
Proof.
  split.
  - vm_compute. reflexivity.
  - apply (C3_counts_sum_to_population rng0 [0; 1000] chainWorld 0%nat
             chainWorld2 3%nat).
    vm_compute. reflexivity.
Defined.

Lemma C4_witness :
  exists n1, nodes (simulation chainWorld2) !! 3%nat = Some n1
             /\ state n1 = deceased /\ n1 = exampleNode 3 deceased 20 0.
Proof.
  apply (C4_terminal_compartments_absorbing rng0 [0; 1000] chainWorld 0%nat
           chainWorld2 3%nat 3%nat (exampleNode 3 deceased 20 0)).
  - vm_compute. reflexivity.
  - reflexivity.
  - left. reflexivity.
Defined.

Lemma step_quarantine_entry_and_exit_witness :
  (state (exampleNode 5 quarantined 9 14) = healthy ->
   state (exampleNode 5 recovered 9 15) <> quarantined) /\
  (state (exampleNode 5 recovered 9 15) = quarantined ->
   state (exampleNode 5 quarantined 9 14) <> quarantined ->
   state (exampleNode 5 quarantined 9 14) = infected
   /\ infectionTime (exampleNode 5 recovered 9 15)
      = infectionTime (exampleNode 5 quarantined 9 14) + 1
   /\ 7 < infectionTime (exampleNode 5 recovered 9 15)) /\
  (state (exampleNode 5 quarantined 9 14) = quarantined ->
   state (exampleNode 5 recovered 9 15) = recovered ->
   quarantineTime (exampleNode 5 recovered 9 15)
   = quarantineTime (exampleNode 5 quarantined 9 14) + 1
   /\ 14 < quarantineTime (exampleNode 5 recovered 9 15)).
Proof.
  apply (step_quarantine_entry_and_exit rng0 0 chainWorld 0%nat chainWorld1
           3%nat 5%nat).
  - vm_compute. reflexivity.
  - reflexivity.
  - reflexivity.
Defined.

Lemma C10_witness :
  (countState healthy (nodes (simulation chainWorld1))
   <= countState healthy (nodes (simulation chainWorld)))%nat /\
  forall k n n1,
    nodes (simulation chainWorld) !! k = Some n ->
    nodes (simulation chainWorld1) !! k = Some n1 ->
    state n1 = healthy -> state n = healthy.
Proof.
  apply (C10_healthy_count_non_increasing rng0 0 chainWorld 0%nat chainWorld1
           3%nat).
  vm_compute. reflexivity.
Defined.

(** ** The telemetry window *)

Lemma length_lastN {A} w (l : list A) :
  length (lastN w l) = Nat.min w (length l).
Proof. unfold lastN. rewrite length_drop. lia. Qed.

Lemma tail_drop {A} k (l : list A) : tail (drop k l) = drop (S k) l.
Proof.
  revert l. induction k as [|k IH]; intros [|a l]; simpl; done.
Qed.

(** Pushing onto a full window and shifting keeps the last [w] points. *)
Lemma window_push {A} w n (l : list A) v :
  length l = n ->
  (if (w <? S (Nat.min w n))%nat then shift (push (lastN w l) v)
   else push (lastN w l) v)
  = lastN w (l ++ [v]).
Proof.
  intros Hn. unfold shift, push, lastN. rewrite length_app. simpl.
  destruct (w <? S (Nat.min w n))%nat eqn:Hw.
  - apply Nat.ltb_lt in Hw.
    replace (length l + 1 - w)%nat with (S (length l - w)) by lia.
    rewrite <- tail_drop. f_equal.
    rewrite drop_app_le by lia. done.
  - apply Nat.ltb_ge in Hw.
    replace (length l - w)%nat with 0%nat by lia.
    replace (length l + 1 - w)%nat with 0%nat by lia.
    by rewrite !drop_0.
Qed.

Lemma maxDataPoints_addDataPoint stats stp c :
  maxDataPoints (addDataPoint stats stp c) = maxDataPoints c.
Proof. unfold addDataPoint. by destruct (_ <? _)%nat. Qed.

Lemma length_push {A} (l : list A) v : length (push l v) = S (length l).
Proof. unfold push. rewrite length_app. simpl. lia. Qed.

Lemma windowOf_addDataPoint pts stats stp c :
  windowOf pts c -> windowOf (pts ++ [(stats, stp)]) (addDataPoint stats stp c).
Proof.
  unfold windowOf, series, pointsOf.
  rewrite maxDataPoints_addDataPoint.
  intros [= Hh Hi Hr Hq Hd Ht].
  unfold addDataPoint. cbv zeta.
  cbn [d_healthy d_infected d_recovered d_quarantined d_deceased
       d_timestamps].
  rewrite Hh, Hi, Hr, Hq, Hd, Ht.
  rewrite length_push, length_lastN, length_map.
  rewrite !map_app. cbn [map fst snd].
  rewrite <- !(window_push (maxDataPoints c) (length pts))
    by apply length_map.
  by destruct (_ <? _)%nat.
Qed.

Lemma windowOf_clear c : windowOf [] (clear c).
Proof. reflexivity. Qed.

Lemma windowOf_recordAll pts0 pts c :
  windowOf pts0 c ->
  windowOf (pts0 ++ pts) (recordAll pts c)
  /\ maxDataPoints (recordAll pts c) = maxDataPoints c.
Proof.
  revert pts0 c. induction pts as [|[stats stp] pts IH]; intros pts0 c Hw.
  - by rewrite app_nil_r.
  - simpl. apply (windowOf_addDataPoint _ stats stp) in Hw.
    destruct (IH _ _ Hw) as [Hw' Hm].
    rewrite <- app_assoc in Hw'. split; [done|].
    by rewrite Hm, maxDataPoints_addDataPoint.
Qed.

Lemma windowOf_bounded pts c :
  windowOf pts c ->
  Forall (fun l => length l <= maxDataPoints c)%nat (series c).
Proof.
  unfold windowOf. intros ->. apply Forall_map, Forall_forall.
  intros l _. simpl. rewrite length_lastN. lia.
Qed.

Lemma applyOps_window ops c pts :
  windowOf pts c ->
  maxDataPoints (applyOps ops c) = maxDataPoints c
  /\ exists pts1, windowOf pts1 (applyOps ops c).
Proof.
  revert c pts. induction ops as [|op ops IH]; intros c pts Hw; simpl.
  - eauto.
  - destruct op as [stats stp|]; simpl.
    + apply (windowOf_addDataPoint _ stats stp) in Hw.
      destruct (IH _ _ Hw) as [Hm Hex].
      by rewrite Hm, maxDataPoints_addDataPoint.
    + destruct (IH _ _ (windowOf_clear c)) as [Hm Hex]. by rewrite Hm.
Qed.

(** C6.  The telemetry window never holds more than [maxDataPoints]
    entries (100 by default): (1) whatever sequence of [addDataPoint] and
    [clear] calls a new chart receives, each of its six series has at most
    [maxDataPoints] entries; (2) starting from a cleared chart, after any
    list of [addDataPoint] calls each series holds exactly the last
    [maxDataPoints] points recorded, in order (so one point per call, the
    oldest evicted first); (3) after [clear] every series is empty. *)
Theorem C6_telemetry_window_bounded :
  (forall maxPoints ops,
     let c := applyOps ops (newChart maxPoints) in
     maxDataPoints c = default 100%nat maxPoints /\
     Forall (fun l => length l <= maxDataPoints c)%nat (series c)) /\
  (forall c pts,
     let c1 := recordAll pts (clear c) in
     maxDataPoints c1 = maxDataPoints c /\
     series c1 = map (lastN (maxDataPoints c)) (pointsOf pts) /\
     Forall (fun l => length l = Nat.min (maxDataPoints c) (length pts))
            (series c1)) /\
  (forall c, maxDataPoints (clear c) = maxDataPoints c /\
             Forall (fun l => length l = 0%nat) (series (clear c))).
Proof.
  split; [|split].
  - intros maxPoints ops c.
    destruct (applyOps_window ops (newChart maxPoints) [] eq_refl)
      as [Hm [pts Hw]].
    split; [done|]. by eapply windowOf_bounded.
  - intros c pts c1.
    destruct (windowOf_recordAll [] pts (clear c) (windowOf_clear c))
      as [Hw Hm].
    simpl in Hw. unfold windowOf in Hw. fold c1 in Hw, Hm.
    rewrite Hm in Hw. simpl maxDataPoints in *.
    split; [done|]. split; [done|].
    rewrite Hw. unfold pointsOf.
    repeat (apply Forall_cons; split;
            [by rewrite length_lastN, length_map|]).
    constructor.
  - intros c. split; [done|]. unfold series. simpl.
    repeat (apply Forall_cons; split; [done|]). constructor.
Qed.

(** ** Easing *)

Lemma cube_mono (a b : Q) : (a <= b)%Q -> (cube a <= cube b)%Q.
Proof.
  unfold cube. intros H.
  assert (0 <= (b - a) * ((a + b) * (a + b) + a * a + b * b))%Q as Hp.
  { apply Qmult_le_0_compat; [lra|]. nra. }
  nra.
Qed.

Lemma easeProgress_mono (p q : Q) :
  (p <= q)%Q -> (easeProgress p <= easeProgress q)%Q.
Proof.
  intros H. unfold easeProgress.
  assert (cube (1 - q) <= cube (1 - p))%Q by (apply cube_mono; lra).
  lra.
Qed.

Lemma easeProgress_0 : (easeProgress 0 == 0)%Q.
Proof. reflexivity. Qed.

Lemma easeProgress_1 : (easeProgress 1 == 1)%Q.
Proof. reflexivity. Qed.

Lemma easeProgress_le_1 (p : Q) : (p <= 1)%Q -> (easeProgress p <= 1)%Q.
Proof.
  intros H. rewrite <- easeProgress_1. by apply easeProgress_mono.
Qed.

Lemma interpolate_mono_up (s t p q : Q) :
  (s <= t)%Q -> (p <= q)%Q -> (interpolate s t p <= interpolate s t q)%Q.
Proof.
  intros Hst Hpq. unfold interpolate.
  pose proof (easeProgress_mono p q Hpq). nra.
Qed.

Lemma interpolate_mono_down (s t p q : Q) :
  (t <= s)%Q -> (p <= q)%Q -> (interpolate s t q <= interpolate s t p)%Q.
Proof.
  intros Hst Hpq. unfold interpolate.
  pose proof (easeProgress_mono p q Hpq). nra.
Qed.

Lemma positionAt_snap (s t p : Q) : (1 <= p)%Q -> positionAt s t p = t.
Proof.
  intros H. unfold positionAt.
  apply Qle_bool_iff in H. by rewrite H.
Qed.

Lemma positionAt_interpolate (s t p : Q) :
  (p < 1)%Q -> positionAt s t p = interpolate s t p.
Proof.
  intros H. unfold positionAt.
  destruct (Qle_bool 1 p) eqn:E; [|done].
  apply Qle_bool_iff in E. lra.
Qed.

Lemma positionAt_mono_up (s t p q : Q) :
  (s <= t)%Q -> (p <= q)%Q -> (positionAt s t p <= positionAt s t q)%Q.
Proof.
  intros Hst Hpq.
  destruct (Qlt_le_dec q 1) as [Hq | Hq].
  - rewrite !positionAt_interpolate by lra. by apply interpolate_mono_up.
  - rewrite (positionAt_snap s t q Hq).
    destruct (Qlt_le_dec p 1) as [Hp | Hp].
    + rewrite positionAt_interpolate by done. unfold interpolate.
      pose proof (easeProgress_le_1 p). nra.
    + rewrite positionAt_snap by done. lra.
Qed.

Lemma positionAt_mono_down (s t p q : Q) :
  (t <= s)%Q -> (p <= q)%Q -> (positionAt s t q <= positionAt s t p)%Q.
Proof.
  intros Hst Hpq.
  destruct (Qlt_le_dec q 1) as [Hq | Hq].
  - rewrite !positionAt_interpolate by lra. by apply interpolate_mono_down.
  - rewrite (positionAt_snap s t q Hq).
    destruct (Qlt_le_dec p 1) as [Hp | Hp].
    + rewrite positionAt_interpolate by done. unfold interpolate.
      pose proof (easeProgress_le_1 p). nra.
    + rewrite positionAt_snap by done. lra.
Qed.

Lemma updateAnimation_position now anim node :
  let n1 := (updateAnimation now anim node).1 in
  x n1 = positionAt (startX anim) (targetX anim) (animProgress anim now) /\
  y n1 = positionAt (startY anim) (targetY anim) (animProgress anim now).
Proof.
  unfold updateAnimation, positionAt.
  destruct (Qle_bool 1 (animProgress anim now)); simpl; [|done].
  by destruct (decide _).
Qed.

Lemma animProgress_mono anim now1 now2 :
  0 < duration anim -> now1 <= now2 ->
  (animProgress anim now1 <= animProgress anim now2)%Q.
Proof.
  intros Hd Hn. unfold animProgress.
  apply Q.min_le_compat_r.
  apply Qmult_le_compat_r.
  - rewrite <- Zle_Qle. lia.
  - apply Qinv_le_0_compat. replace 0%Q with (inject_Z 0) by done.
    rewrite <- Zle_Qle. lia.
Qed.

(** C7.  The easing of [updateAnimations] is the cubic ease-out
    [1 - (1 - progress)^3], and the coordinate it writes is
    [start + (target - start) * eased], replaced by the target once
    [progress >= 1].  (1) The eased progress is [1 - (1 - progress)^3];
    (2) for every progress below 1 the coordinate is exactly
    [start + (target - start) * (1 - (1 - progress)^3)]; (3) at progress 0
    it equals the start; (4) at progress 1 (and beyond) it is the target
    itself; (5) along an axis the coordinate is monotonic in progress:
    non-decreasing when the target is not below the start, non-increasing
    when it is not above; (6) both coordinates written by
    [updateAnimations] for an animation are these, interpolated while the
    progress of the animation is below 1 and snapped to the target (with
    the animation put on the removal list) from progress 1 on; (7) the
    progress itself is monotonic in the clock. *)
Theorem C7_easing_endpoints_and_monotonic :
  (forall p, easeProgress p == 1 - (1 - p) ^ 3)%Q /\
  (forall s t p, (p < 1)%Q ->
     positionAt s t p = (s + (t - s) * easeProgress p)%Q /\
     (positionAt s t p == s + (t - s) * (1 - (1 - p) ^ 3))%Q) /\
  (forall s t, positionAt s t 0 == s)%Q /\
  (forall s t p, (1 <= p)%Q -> positionAt s t p = t) /\
  (forall s t p q, (p <= q)%Q ->
     ((s <= t)%Q -> (positionAt s t p <= positionAt s t q)%Q) /\
     ((t <= s)%Q -> (positionAt s t q <= positionAt s t p)%Q)) /\
  (forall now anim node,
     let n1 := (updateAnimation now anim node).1 in
     x n1 = positionAt (startX anim) (targetX anim) (animProgress anim now) /\
     y n1 = positionAt (startY anim) (targetY anim) (animProgress anim now)) /\
  (forall now anim node,
     let r := updateAnimation now anim node in
     let pr := animProgress anim now in
     ((pr < 1)%Q ->
      (x r.1 == startX anim
                + (targetX anim - startX anim) * (1 - (1 - pr) ^ 3))%Q /\
      (y r.1 == startY anim
                + (targetY anim - startY anim) * (1 - (1 - pr) ^ 3))%Q /\
      r.2 = false) /\
     ((1 <= pr)%Q ->
      x r.1 = targetX anim /\ y r.1 = targetY anim /\ r.2 = true)) /\
  (forall anim now1 now2, 0 < duration anim -> now1 <= now2 ->
     (animProgress anim now1 <= animProgress anim now2)%Q).
Proof.
  assert (forall p, easeProgress p == 1 - (1 - p) ^ 3)%Q as Hease.
  { intros p. unfold easeProgress, cube. simpl. ring. }
  assert (forall s t p, (p < 1)%Q ->
            positionAt s t p = (s + (t - s) * easeProgress p)%Q /\
            (positionAt s t p == s + (t - s) * (1 - (1 - p) ^ 3))%Q) as Hinterp.
  { intros s t p Hp. rewrite positionAt_interpolate by done.
    unfold interpolate. split; [reflexivity|]. by rewrite Hease. }
  split; [exact Hease|]. split; [exact Hinterp|].
  split.
  { intros s t. unfold positionAt, interpolate, easeProgress, cube. simpl.
    ring. }
  split; [apply positionAt_snap|].
  split.
  { intros s t p q Hpq. split; intros Hst.
    - by apply positionAt_mono_up.
    - by apply positionAt_mono_down. }
  split; [apply updateAnimation_position|].
  split; [|apply animProgress_mono].
  intros now anim node r pr.
  destruct (updateAnimation_position now anim node) as [Hx Hy].
  fold r pr in Hx, Hy. split.
  - intros Hlt. rewrite Hx, Hy.
    split; [apply Hinterp, Hlt|]. split; [apply Hinterp, Hlt|].
    unfold r, updateAnimation. fold pr.
    destruct (Qle_bool 1 pr) eqn:E; [|done].
    apply Qle_bool_iff in E. lra.
  - intros Hge. rewrite Hx, Hy, !positionAt_snap by done.
    split; [done|]. split; [done|].
    unfold r, updateAnimation. fold pr.
    apply Qle_bool_iff in Hge. by rewrite Hge.
Qed.

Lemma C7_witness :
  (positionAt (1 # 2) (7125 # 10000) (1 # 2)
   = (1 # 2) + ((7125 # 10000) - (1 # 2)) * easeProgress (1 # 2) /\
   positionAt (1 # 2) (7125 # 10000) (1 # 2)
   == (1 # 2) + ((7125 # 10000) - (1 # 2)) * (1 - (1 - (1 # 2)) ^ 3))%Q /\
  positionAt (1 # 2) (7125 # 10000) 1 = (7125 # 10000) /\
  (positionAt (1 # 2) (7125 # 10000) (1 # 4)
   <= positionAt (1 # 2) (7125 # 10000) (1 # 2))%Q /\
  (positionAt (7125 # 10000) (1 # 2) (1 # 2)
   <= positionAt (7125 # 10000) (1 # 2) (1 # 4))%Q /\
  (animProgress (mkAnimation (1 # 2) (1 # 2) (7125 # 10000) (7125 # 10000)
                             0 ANIMATION_DURATION) 250
   <= animProgress (mkAnimation (1 # 2) (1 # 2) (7125 # 10000) (7125 # 10000)
                                0 ANIMATION_DURATION) 500)%Q.
Proof.
  destruct C7_easing_endpoints_and_monotonic
    as (_ & Hinterp & _ & Hsnap & Hmono & _ & _ & Hclock).
  split; [|split; [|split; [|split]]].
  - apply Hinterp. vm_compute. reflexivity.
  - apply Hsnap. vm_compute. discriminate.
  - apply (Hmono (1 # 2) (7125 # 10000) (1 # 4) (1 # 2)).
    + vm_compute. discriminate.
    + vm_compute. discriminate.
  - apply (Hmono (7125 # 10000) (1 # 2) (1 # 4) (1 # 2)).
    + vm_compute. discriminate.
    + vm_compute. discriminate.
  - apply Hclock.
    + reflexivity.
    + vm_compute. discriminate.
Defined.

(** ** Reset *)

(** C9 (as stated) fails: after two steps of the example run every node
    carries a non-zero counter, and [resetSimulation] leaves the counters
    as they are. *)
Lemma C9_counterexample : ~ resetZeroesCounters.
Proof.
  intros H.
  destruct (H chainWorld2 (exampleNode 0 healthy 2 0)) as [Hi _].
  - vm_compute. apply list_elem_of_here.
  - discriminate.
Qed.

(** C9 (amended).  After [resetSimulation], whatever the state before: the
    run is stopped, the step and day counters are 0, every node is Healthy
    and has no saved pre-quarantine position, no animation is in flight and
    every series of the telemetry window is empty.  The population, the
    edges and each node's [infectionTime] and [quarantineTime] are left as
    they were. *)
Theorem C9_reset_state :
  forall w,
    let w1 := resetSimulation w in
    running (simulation w1) = false /\
    step (simulation w1) = 0 /\ day (simulation w1) = 0 /\
    Forall (fun n => state n = healthy /\ originalX n = None
                     /\ originalY n = None) (nodes (simulation w1)) /\
    nodeAnimations w1 = ∅ /\
    Forall (fun l => length l = 0%nat) (series (realtimeChart w1)) /\
    length (nodes (simulation w1)) = length (nodes (simulation w)) /\
    edges (simulation w1) = edges (simulation w) /\
    map infectionTime (nodes (simulation w1))
    = map infectionTime (nodes (simulation w)) /\
    map quarantineTime (nodes (simulation w1))
    = map quarantineTime (nodes (simulation w)).
Proof.
  intros w w1. unfold w1, resetSimulation. simpl.
  repeat split.
  - apply Forall_map, Forall_forall. intros n _. by simpl.
  - repeat (apply Forall_cons; split; [done|]). constructor.
  - by rewrite length_map.
  - rewrite <- list_fmap_compose. by apply list_fmap_ext.
  - rewrite <- list_fmap_compose. by apply list_fmap_ext.
Qed.

(** ** The fallback network *)

Section TopologyFacts.

Variable rng : nat -> Q.
Hypothesis rng_unit : unitDraws rng.

Lemma numConnections_range p :
  (3 <= numConnections rng p <= 5)%nat.
Proof.
  unfold numConnections. destruct (rng_unit p) as [H0 H1].
  assert (0 <= Qfloor (rng p * 3)).
  { change 0 with (Qfloor 0). apply Qfloor_resp_le. lra. }
  assert (Qfloor (rng p * 3) < 3).
  { apply Z.lt_nge. intros Hge.
    assert (inject_Z 3 <= rng p * 3)%Q as Hq.
    { eapply Qle_trans; [|apply Qfloor_le]. by rewrite <- Zle_Qle. }
    change (inject_Z 3) with 3%Q in Hq. lra. }
  lia.
Qed.

Lemma randomBelow_range n p : (0 < n)%nat -> (randomBelow rng n p < n)%nat.
Proof.
  intros Hn. unfold randomBelow. destruct (rng_unit p) as [H0 H1].
  assert (0 < inject_Z (Z.of_nat n))%Q as Hpos.
  { change 0%Q with (inject_Z 0). rewrite <- Zlt_Qlt. lia. }
  assert (0 <= Qfloor (rng p * inject_Z (Z.of_nat n))).
  { change 0 with (Qfloor 0). apply Qfloor_resp_le. nra. }
  assert (Qfloor (rng p * inject_Z (Z.of_nat n)) < Z.of_nat n).
  { apply Z.lt_nge. intros Hge.
    assert (inject_Z (Z.of_nat n) <= rng p * inject_Z (Z.of_nat n))%Q.
    { eapply Qle_trans; [|apply Qfloor_le]. by rewrite <- Zle_Qle. }
    nra. }
  lia.
Qed.

End TopologyFacts.

Section EdgeLoopFacts.

Variable rng : nat -> Q.

(** What the inner loop guarantees whatever the draws are. *)
Lemma connectLoop_spec n i fuel connected p :
  let es := (connectLoop rng n i fuel connected p).1 in
  (length es <= fuel)%nat /\
  NoDup (target <$> es) /\
  Forall (fun e => source e = i /\ target e <> i /\ (target e ∉ connected)
                   /\ exists q, target e = randomBelow rng n q) es.
Proof.
  revert connected p. induction fuel as [|fuel IH]; intros connected p.
  - simpl. repeat split; [lia|constructor|constructor].
  - simpl.
    destruct (bool_decide (randomBelow rng n p <> i)
              && bool_decide (randomBelow rng n p ∉ connected)) eqn:Hc.
    + apply andb_true_iff in Hc as [Hi Hn].
      apply bool_decide_eq_true in Hi, Hn.
      specialize (IH ({[randomBelow rng n p]} ∪ connected) (S p)).
      destruct (connectLoop _ _ _ _ _ _) as [es p1]. simpl in *.
      destruct IH as (Hlen & Hnd & Hall).
      split; [lia|]. split.
      * apply NoDup_cons. split; [|done]. intros Hin.
        apply list_elem_of_fmap in Hin as (e & He & Hin).
        rewrite Forall_forall in Hall.
        destruct (Hall e Hin) as (_ & _ & Hnotin & _).
        apply Hnotin. rewrite <- He.
        apply elem_of_union_l, elem_of_singleton. reflexivity.
      * constructor; [by eauto|].
        eapply Forall_impl; [exact Hall|]. simpl.
        intros e (? & ? & Hnotin & ?). repeat split; [done|done| |done].
        intros Hin. apply Hnotin. by apply elem_of_union_r.
    + specialize (IH connected (S p)).
      destruct IH as (Hlen & Hnd & Hall). repeat split; [lia|done|done].
Qed.

Lemma connectNode_sources n i p :
  Forall (fun e => source e = i) (connectNode rng n i p).1.
Proof.
  unfold connectNode.
  destruct (connectLoop_spec n i (numConnections rng p) ∅ (S p))
    as (_ & _ & Hall).
  eapply Forall_impl; [exact Hall|]. by intros e (? & _).
Qed.

Lemma outEdges_same i (es : list Edge) :
  Forall (fun e => source e = i) es -> outEdges i es = es.
Proof.
  unfold outEdges. induction 1 as [|e es He _ IH]; [done|].
  rewrite filter_cons_True by done. by rewrite IH.
Qed.

Lemma outEdges_other i j (es : list Edge) :
  i <> j -> Forall (fun e => source e = j) es -> outEdges i es = [].
Proof.
  unfold outEdges. intros Hne. induction 1 as [|e es He _ IH]; [done|].
  rewrite filter_cons_False by congruence. done.
Qed.

Lemma edgeLoop_position n count i0 p :
  (edgeLoop rng n (S count) i0 p).2
  = (edgeLoop rng n count (S i0) (connectNode rng n i0 p).2).2.
Proof.
  cbn [edgeLoop]. destruct (connectNode rng n i0 p) as [es p1].
  cbn [snd]. by destruct (edgeLoop rng n count (S i0) p1).
Qed.

(** The out-edges of node [i] in the result of the outer loop are the
    edges its own iteration pushed. *)
Lemma outEdges_edgeLoop n count i0 p i :
  outEdges i (edgeLoop rng n count i0 p).1
  = if decide (i0 <= i < i0 + count)%nat
    then (connectNode rng n i (edgeLoop rng n (i - i0) i0 p).2).1
    else [].
Proof.
  revert i0 p. induction count as [|count IH]; intros i0 p.
  - simpl. destruct (decide _); [lia|done].
  - pose proof (edgeLoop_position n) as Hpos.
    cbn [edgeLoop].
    pose proof (connectNode_sources n i0 p) as Hsrc.
    destruct (connectNode rng n i0 p) as [es p1] eqn:Hcn.
    specialize (IH (S i0) p1).
    destruct (edgeLoop rng n count (S i0) p1) as [rest p2] eqn:Hrest.
    cbn [fst snd] in IH, Hsrc |- *.
    unfold outEdges in *. rewrite filter_app. rewrite IH.
    fold (outEdges i es).
    destruct (decide (i = i0)) as [-> | Hne].
    + rewrite (outEdges_same i0 es Hsrc).
      destruct (decide (S i0 <= i0 < _)%nat); [lia|].
      destruct (decide (i0 <= i0 < _)%nat); [|lia].
      rewrite Nat.sub_diag. simpl. by rewrite Hcn, app_nil_r.
    + rewrite (outEdges_other i i0 es Hne Hsrc). simpl.
      destruct (decide (S i0 <= i < _)%nat) as [Hin|Hout].
      * destruct (decide (i0 <= i < _)%nat); [|lia].
        replace (i - i0)%nat with (S (i - S i0)) by lia.
        by rewrite Hpos, Hcn.
      * destruct (decide (i0 <= i < _)%nat); [lia|done].
Qed.

Lemma outEdges_createFallbackEdges n i :
  (i < n)%nat ->
  outEdges i (createFallbackEdges rng n)
  = (connectNode rng n i (degreeDraw rng n i (2 * n))).1.
Proof.
  intros Hi. unfold createFallbackEdges, degreeDraw.
  rewrite outEdges_edgeLoop.
  destruct (decide _); [|lia]. by rewrite Nat.sub_0_r.
Qed.

End EdgeLoopFacts.

Section DrawFacts.

Variable rng : nat -> Q.

Lemma targetDraws_cons n p d :
  targetDraws rng n p (S d)
  = randomBelow rng n p :: targetDraws rng n (S p) d.
Proof. reflexivity. Qed.

Lemma length_targetDraws n p d : length (targetDraws rng n p d) = d.
Proof. unfold targetDraws. by rewrite length_map, length_seq. Qed.

(** Every iteration of the inner loop consumes one draw, whether or not it
    pushes an edge. *)
Lemma connectLoop_position n i fuel connected p :
  (connectLoop rng n i fuel connected p).2 = (p + fuel)%nat.
Proof.
  revert connected p. induction fuel as [|fuel IH]; intros connected p.
  - simpl. lia.
  - cbn [connectLoop]. destruct (_ && _).
    + specialize (IH ({[randomBelow rng n p]} ∪ connected) (S p)).
      destruct (connectLoop _ _ _ _ _ _) as [es p1]. cbn [snd] in *. lia.
    + rewrite IH. lia.
Qed.

(** The targets of the edges pushed are the draws that are neither the
    node itself nor already connected. *)
Lemma connectLoop_targets n i fuel connected p t :
  t ∈ target <$> (connectLoop rng n i fuel connected p).1 <->
  t ∈ targetDraws rng n p fuel /\ t <> i /\ (t ∉ connected).
Proof.
  revert connected p. induction fuel as [|fuel IH]; intros connected p.
  - simpl. split; [intros H; by apply elem_of_nil in H|].
    intros [H _]. by apply elem_of_nil in H.
  - rewrite targetDraws_cons. cbn [connectLoop].
    set (tgt := randomBelow rng n p).
    destruct (bool_decide (tgt <> i) && bool_decide (tgt ∉ connected))
      eqn:Hc.
    + apply andb_true_iff in Hc as [Hi Hn].
      apply bool_decide_eq_true in Hi, Hn.
      specialize (IH ({[tgt]} ∪ connected) (S p)).
      destruct (connectLoop _ _ _ _ _ _) as [es p1]. cbn [fst] in *.
      rewrite fmap_cons. cbn [target]. rewrite !elem_of_cons, IH.
      split.
      * intros [-> | (Hd & Hti & Hnot)]; [by auto|].
        split; [by right|]. split; [done|].
        intros Hin. apply Hnot. by apply elem_of_union_r.
      * intros ([-> | Hd] & Hti & Hnot); [by left|].
        destruct (decide (t = tgt)) as [-> | Hne]; [by left|].
        right. split; [done|]. split; [done|].
        intros [Hin | Hin]%elem_of_union; [|done].
        by apply elem_of_singleton in Hin.
    + rewrite IH, elem_of_cons. split; [by intros (? & ? & ?); auto|].
      intros ([-> | Hd] & Hti & Hnot); [|done].
      exfalso. rewrite (bool_decide_eq_true_2 _ Hti) in Hc.
      by rewrite (bool_decide_eq_true_2 _ Hnot) in Hc.
Qed.

(** The edges are pushed in the order of the draws. *)
Lemma connectLoop_sublist n i fuel connected p :
  sublist (target <$> (connectLoop rng n i fuel connected p).1)
          (targetDraws rng n p fuel).
Proof.
  revert connected p. induction fuel as [|fuel IH]; intros connected p.
  - simpl. constructor.
  - rewrite targetDraws_cons. cbn [connectLoop]. destruct (_ && _).
    + specialize (IH ({[randomBelow rng n p]} ∪ connected) (S p)).
      destruct (connectLoop _ _ _ _ _ _) as [es p1]. cbn [fst] in *.
      rewrite fmap_cons. cbn [target]. by apply sublist_skip.
    + apply sublist_cons, IH.
Qed.

(** Every iteration pushes an edge exactly when the draws are pairwise
    distinct and none is the node itself or already connected. *)
Lemma connectLoop_full n i fuel connected p :
  length (connectLoop rng n i fuel connected p).1 = fuel <->
  NoDup (targetDraws rng n p fuel) /\
  Forall (fun t => t <> i /\ (t ∉ connected)) (targetDraws rng n p fuel).
Proof.
  revert connected p. induction fuel as [|fuel IH]; intros connected p.
  - simpl. split; [intros _; split; constructor|done].
  - rewrite targetDraws_cons.
    pose proof (connectLoop_spec rng n i fuel connected (S p))
      as (Hle & _ & _).
    cbn [connectLoop]. set (tgt := randomBelow rng n p) in *.
    destruct (bool_decide (tgt <> i) && bool_decide (tgt ∉ connected))
      eqn:Hc.
    + apply andb_true_iff in Hc as [Hi Hn].
      apply bool_decide_eq_true in Hi, Hn.
      specialize (IH ({[tgt]} ∪ connected) (S p)).
      destruct (connectLoop rng n i fuel ({[tgt]} ∪ connected) (S p))
        as [es p1]. cbn [fst] in *. cbn [length].
      rewrite NoDup_cons, Forall_cons. split.
      * intros [= Hlen]. apply IH in Hlen as [Hnd Hall].
        rewrite Forall_forall in Hall.
        split; [split; [|done]|split; [done|]].
        -- intros Hin. destruct (Hall _ Hin) as [_ Hnot].
           apply Hnot, elem_of_union_l. by apply elem_of_singleton.
        -- apply Forall_forall. intros t Ht.
           destruct (Hall _ Ht) as [Hti Hnot]. split; [done|].
           intros Hin. apply Hnot. by apply elem_of_union_r.
      * intros ((Hnotin & Hnd) & _ & Hall). f_equal. apply IH.
        split; [done|]. rewrite Forall_forall in Hall.
        apply Forall_forall. intros t Ht.
        destruct (Hall _ Ht) as [Hti Hnot]. split; [done|].
        intros [Hin | Hin]%elem_of_union; [|done].
        apply elem_of_singleton in Hin as ->. done.
    + split; [lia|].
      intros (_ & [[Hti Hnot] _]%Forall_cons). exfalso.
      rewrite (bool_decide_eq_true_2 _ Hti) in Hc.
      by rewrite (bool_decide_eq_true_2 _ Hnot) in Hc.
Qed.

Lemma connectNode_position n i p :
  (connectNode rng n i p).2 = (S p + numConnections rng p)%nat.
Proof. unfold connectNode. apply connectLoop_position. Qed.

Lemma edgeLoop_snoc_position n count i0 p :
  (edgeLoop rng n (S count) i0 p).2
  = (connectNode rng n (i0 + count) (edgeLoop rng n count i0 p).2).2.
Proof.
  revert i0 p. induction count as [|count IH]; intros i0 p.
  - rewrite edgeLoop_position. cbn [edgeLoop snd]. by rewrite Nat.add_0_r.
  - rewrite edgeLoop_position, IH, <- edgeLoop_position.
    by replace (S i0 + count)%nat with (i0 + S count)%nat by lia.
Qed.

(** The node after [i] draws its degree right after the [d] target draws
    of [i]: a dropped draw is not made again. *)
Lemma degreeDraw_succ n i p :
  degreeDraw rng n (S i) p
  = (S (degreeDraw rng n i p)
     + numConnections rng (degreeDraw rng n i p))%nat.
Proof.
  unfold degreeDraw. rewrite edgeLoop_snoc_position, connectNode_position.
  done.
Qed.

End DrawFacts.

(** C8 (as stated) fails.  When every draw is 0, node 0 draws 3
    connections, each of its three target draws is node 0 itself and is
    dropped, and node 0 ends with no out-edge. *)
Lemma C8_counterexample : ~ exactDegree.
Proof.
  intros H.
  assert (unitDraws rng0) as Hu.
  { intros k. split; vm_compute; [discriminate|reflexivity]. }
  specialize (H rng0 Hu 0%nat ltac:(unfold nodeCount; lia)).
  vm_compute in H. discriminate.
Qed.

(** C8 (amended).  In [createFallbackNetwork], with draws in [0, 1), every
    node [i] draws a number [d] of connections between 3 and 5 and then
    makes exactly [d] target draws: the next node's degree is drawn right
    after them, so a dropped draw is not made again.  The targets of its
    out-edges are exactly the drawn targets other than [i], each once and in
    the order drawn; so it has at most [d] out-edges, and exactly [d] if and
    only if the [d] draws are pairwise distinct and none is [i].  Every
    out-edge goes to an existing node other than [i]. *)
Theorem C8_at_most_drawn_degree :
  forall rng, unitDraws rng ->
  forall i, (i < nodeCount)%nat ->
    let q := degreeDraw rng nodeCount i (2 * nodeCount) in
    let d := numConnections rng q in
    let draws := targetDraws rng nodeCount (S q) d in
    let out := outEdges i (createFallbackEdges rng nodeCount) in
    (3 <= d <= 5)%nat /\
    length draws = d /\
    degreeDraw rng nodeCount (S i) (2 * nodeCount) = (S q + d)%nat /\
    (forall t, t ∈ target <$> out <-> t ∈ draws /\ t <> i) /\
    NoDup (target <$> out) /\
    sublist (target <$> out) draws /\
    (length out <= d)%nat /\
    (length out = d <-> NoDup draws /\ (i ∉ draws)) /\
    Forall (fun e => source e = i /\ target e <> i
                     /\ (target e < nodeCount)%nat) out.
Proof.
  intros rng Hu i Hi q d draws out.
  split; [apply numConnections_range, Hu|].
  split; [apply length_targetDraws|].
  split; [apply degreeDraw_succ|].
  unfold out. rewrite outEdges_createFallbackEdges by done.
  unfold connectNode. fold q d.
  destruct (connectLoop_spec rng nodeCount i d ∅ (S q))
    as (Hlen & Hnd & Hall).
  split.
  { intros t. rewrite connectLoop_targets. fold draws. split.
    - by intros (? & ? & _).
    - intros [? ?]. split; [done|]. split; [done|]. apply not_elem_of_empty. }
  split; [done|]. split; [apply connectLoop_sublist|]. split; [done|].
  split.
  { rewrite connectLoop_full. fold draws. split.
    - intros [Hnodup Hdraws]. split; [done|]. intros Hin.
      rewrite Forall_forall in Hdraws. by destruct (Hdraws _ Hin).
    - intros [Hnodup Hnotin]. split; [done|].
      apply Forall_forall. intros t Ht. split; [|apply not_elem_of_empty].
      intros ->. done. }
  eapply Forall_impl; [exact Hall|]. simpl.
  intros e (Hs & Ht & _ & k & Hk). repeat split; [done|done|].
  rewrite Hk. apply randomBelow_range; [done|lia].
Qed.

Lemma C8_witness :
  let q := degreeDraw rng0 nodeCount 1 (2 * nodeCount) in
  let d := numConnections rng0 q in
  let draws := targetDraws rng0 nodeCount (S q) d in
  let out := outEdges 1 (createFallbackEdges rng0 nodeCount) in
  (3 <= d <= 5)%nat /\
  length draws = d /\
  degreeDraw rng0 nodeCount 2 (2 * nodeCount) = (S q + d)%nat /\
  (forall t, t ∈ target <$> out <-> t ∈ draws /\ t <> 1%nat) /\
  NoDup (target <$> out) /\
  sublist (target <$> out) draws /\
  (length out <= d)%nat /\
  (length out = d <-> NoDup draws /\ (1%nat ∉ draws)) /\
  Forall (fun e => source e = 1%nat /\ target e <> 1%nat
                   /\ (target e < nodeCount)%nat) out.
Proof.
  apply (C8_at_most_drawn_degree rng0).
  - intros k. split; vm_compute; [discriminate|reflexivity].
  - unfold nodeCount. lia.
Defined.

(** * Further properties *)

(** ** The run loop: flags, counters, errors *)

Section RunFacts.

Variable rng : nat -> Q.

Lemma fallbackSimulationLoop_idle now w p :
  running (simulation w) = false \/ backendConnected (simulation w) = true ->
  fallbackSimulationLoop rng now w p = Some (w, p).
Proof.
  intros H. unfold fallbackSimulationLoop.
  destruct H as [-> | ->]; [done|]. by rewrite orb_true_r.
Qed.

(** What one effective invocation does to everything but the nodes. *)
Lemma fallbackSimulationLoop_stepping now w p w1 p1 :
  stepping w ->
  fallbackSimulationLoop rng now w p = Some (w1, p1) ->
  stepping w1 /\
  edges (simulation w1) = edges (simulation w) /\
  infectionRate (simulation w1) = infectionRate (simulation w) /\
  recoveryRate (simulation w1) = recoveryRate (simulation w) /\
  deathRate (simulation w1) = deathRate (simulation w) /\
  quarantineRate (simulation w1) = quarantineRate (simulation w) /\
  step (simulation w1) = step (simulation w) + 1 /\
  day (simulation w1) = (step (simulation w) + 1) / 3 /\
  realtimeChart w1
  = addDataPoint (computeStats (nodes (simulation w1)))
                 (Some (step (simulation w) + 1)) (realtimeChart w) /\
  Forall2 stepped (nodes (simulation w)) (nodes (simulation w1)).
Proof.
  intros [Hrun Hback] Hs.
  pose proof (fallbackSimulationLoop_nodes rng _ _ _ _ _ Hs) as Hn.
  revert Hs Hn. unfold fallbackSimulationLoop. rewrite Hrun, Hback. simpl.
  destruct (transmission _ _ _ _ _) as [[ns1 q1]|] eqn:Ht; [|done].
  pose proof (progression_progressed rng now (simulation w) ns1
                (mkEnv q1 (nodeAnimations w))) as Hp.
  destruct (progression _ _ _ _ _) as [ns2 env].
  intros [= <- <-] _. simpl. unfold stepping. simpl.
  repeat split; try done.
  eapply Forall2_stepped; [by eapply transmission_transmitted|done].
Qed.

Lemma fallbackSimulationLoop_edges now w p w1 p1 :
  fallbackSimulationLoop rng now w p = Some (w1, p1) ->
  edges (simulation w1) = edges (simulation w)
  /\ length (nodes (simulation w1)) = length (nodes (simulation w)).
Proof.
  intros Hs. split; [|by eapply step_length].
  revert Hs. unfold fallbackSimulationLoop.
  destruct (negb _ || _); [by intros [= <- <-]|].
  destruct (transmission _ _ _ _ _) as [[ns1 q1]|]; [|done].
  destruct (progression _ _ _ _ _) as [ns2 env].
  by intros [= <- <-].
Qed.

Lemma edgesInRange_step now w p w1 p1 :
  edgesInRange w ->
  fallbackSimulationLoop rng now w p = Some (w1, p1) -> edgesInRange w1.
Proof.
  intros Hr Hs. unfold edgesInRange in *.
  destruct (fallbackSimulationLoop_edges _ _ _ _ _ Hs) as [-> ->]. done.
Qed.

(** X1.  A local run never throws.  When every edge names two existing
    nodes, any number of invocations of the loop returns, and the edges
    still name existing nodes afterwards. *)
Theorem run_never_throws nows w p :
  edgesInRange w ->
  exists w1 p1, runSteps rng nows w p = Some (w1, p1) /\ edgesInRange w1.
Proof.
  revert w p. induction nows as [|now rest IH]; intros w p Hr; simpl.
  - eauto.
  - destruct (fallbackSimulationLoop_total rng now w p Hr) as (w' & p' & Hs).
    rewrite Hs. apply IH. by eapply edgesInRange_step.
Qed.

Lemma transmitEdge_length rate e (ns : list Node) p ns1 p1 :
  transmitEdge rng rate e ns p = Some (ns1, p1) -> length ns1 = length ns.
Proof.
  intros H. symmetry. eapply Forall2_length, transmitEdge_transmitted, H.
Qed.

Lemma transmission_dangling rate es (ns : list Node) p :
  Exists (fun e => (length ns <= source e)%nat
                   \/ (length ns <= target e)%nat) es ->
  transmission rng rate es ns p = None.
Proof.
  revert ns p. induction es as [|e es IH]; intros ns p Hex.
  - by apply Exists_nil in Hex.
  - simpl. destruct (transmitEdge rng rate e ns p) as [[ns1 p1]|] eqn:He;
      [|done].
    apply IH. rewrite (transmitEdge_length _ _ _ _ _ _ He).
    apply Exists_cons in Hex as [Hout | Hex]; [|done].
    exfalso. revert He. unfold transmitEdge.
    destruct Hout as [Hout | Hout].
    + by rewrite (lookup_ge_None_2 _ _ Hout).
    + rewrite (lookup_ge_None_2 _ (target e) Hout).
      by destruct (_ !! source e).
Qed.

(** X2.  When the loop throws.  An effective invocation throws exactly when
    some edge names a node that does not exist. *)
Theorem step_throws_iff_dangling_edge now w p :
  stepping w ->
  fallbackSimulationLoop rng now w p = None <-> ~ edgesInRange w.
Proof.
  intros [Hrun Hback]. split.
  - intros Hnone Hr.
    destruct (fallbackSimulationLoop_total rng now w p Hr) as (? & ? & Hs).
    congruence.
  - intros Hnr. unfold edgesInRange in Hnr.
    apply not_Forall_Exists in Hnr; [|apply _].
    unfold fallbackSimulationLoop. rewrite Hrun, Hback. simpl.
    rewrite transmission_dangling; [done|].
    eapply Exists_impl; [exact Hnr|]. simpl. intros e He.
    destruct (decide (length (nodes (simulation w)) <= source e)%nat);
      [by left|].
    right. apply Nat.nlt_ge. intros Hlt. apply He. split; lia.
Qed.


(** Flags, counters and rates over a run. *)
Lemma runSteps_flags nows w p w1 p1 :
  stepping w ->
  runSteps rng nows w p = Some (w1, p1) ->
  stepping w1 /\
  step (simulation w1) = step (simulation w) + Z.of_nat (length nows) /\
  (nows <> [] -> day (simulation w1) = step (simulation w1) / 3) /\
  edges (simulation w1) = edges (simulation w) /\
  infectionRate (simulation w1) = infectionRate (simulation w) /\
  recoveryRate (simulation w1) = recoveryRate (simulation w) /\
  deathRate (simulation w1) = deathRate (simulation w) /\
  quarantineRate (simulation w1) = quarantineRate (simulation w).
Proof.
  revert w p. induction nows as [|now rest IH]; intros w p Hst; simpl.
  - intros [= <- <-]. repeat split; try done; [apply Hst|apply Hst|lia].
  - destruct (fallbackSimulationLoop rng now w p) as [[w' p']|] eqn:Hs;
      [|done].
    intros Hrest.
    destruct (fallbackSimulationLoop_stepping _ _ _ _ _ Hst Hs)
      as (Hst' & He & Hi & Hr & Hd & Hq & Hstep & Hday & _ & _).
    destruct (IH _ _ Hst' Hrest)
      as (Hst1 & Hstep1 & Hday1 & He1 & Hi1 & Hr1 & Hd1 & Hq1).
    split; [done|]. split; [lia|]. split.
    + intros _. destruct rest as [|now' rest'].
      * simpl in Hrest. injection Hrest as <- <-. by rewrite Hday, Hstep.
      * by apply Hday1.
    + repeat split; congruence.
Qed.

(** X4.  Step and day counters.  Over a run of [n] effective invocations
    the step counter grows by exactly [n], the day is the step divided by
    three (rounded down), and the flags, rates and edges are unchanged. *)
Theorem run_counts_steps nows w p w1 p1 :
  stepping w ->
  runSteps rng nows w p = Some (w1, p1) ->
  stepping w1 /\
  step (simulation w1) = step (simulation w) + Z.of_nat (length nows) /\
  (nows <> [] -> day (simulation w1) = step (simulation w1) / 3) /\
  edges (simulation w1) = edges (simulation w) /\
  length (nodes (simulation w1)) = length (nodes (simulation w)) /\
  infectionRate (simulation w1) = infectionRate (simulation w) /\
  recoveryRate (simulation w1) = recoveryRate (simulation w) /\
  deathRate (simulation w1) = deathRate (simulation w) /\
  quarantineRate (simulation w1) = quarantineRate (simulation w).
Proof.
  intros Hst Hrun.
  destruct (runSteps_flags _ _ _ _ _ Hst Hrun)
    as (Hst1 & Hstep & Hday & He & Hi & Hr & Hd & Hq).
  repeat split; try done; try apply Hst1.
  symmetry. eapply Forall2_length, runSteps_nodes, Hrun.
Qed.

(** X5.  One telemetry point per step.  Over a run of [n] effective
    invocations the chart receives exactly [n] points, in order; their
    timestamps are the step numbers [s + 1 .. s + n], and the five counts of
    each point sum to the population size. *)
Theorem run_records_each_step nows w p w1 p1 pts :
  stepping w ->
  windowOf pts (realtimeChart w) ->
  runSteps rng nows w p = Some (w1, p1) ->
  exists pts1,
    windowOf (pts ++ pts1) (realtimeChart w1) /\
    maxDataPoints (realtimeChart w1) = maxDataPoints (realtimeChart w) /\
    map snd pts1 = stepStamps (step (simulation w)) (length nows) /\
    Forall (fun pt => statsTotal pt.1
                      = Some (Z.of_nat (length (nodes (simulation w))))) pts1.
Proof.
  revert w p pts. induction nows as [|now rest IH]; intros w p pts Hst Hw;
    simpl.
  - intros [= <- <-]. exists []. rewrite app_nil_r. by repeat split.
  - destruct (fallbackSimulationLoop rng now w p) as [[w' p']|] eqn:Hs;
      [|done].
    intros Hrest.
    destruct (fallbackSimulationLoop_stepping _ _ _ _ _ Hst Hs)
      as (Hst' & _ & _ & _ & _ & _ & Hstep & _ & Hchart & HF).
    pose proof (windowOf_addDataPoint pts
                  (computeStats (nodes (simulation w')))
                  (Some (step (simulation w) + 1)) _ Hw) as Hw'.
    rewrite <- Hchart in Hw'.
    destruct (IH _ _ _ Hst' Hw' Hrest) as (pts1 & Hw1 & Hm1 & Hstamps & Hall).
    eexists (_ :: pts1). rewrite <- app_assoc in Hw1. simpl in Hw1.
    split; [exact Hw1|]. split.
    { rewrite Hm1, Hchart. apply maxDataPoints_addDataPoint. }
    split.
    + simpl. rewrite Hstamps. unfold stepStamps. simpl. f_equal.
      * f_equal. lia.
      * rewrite <- seq_shift, map_map. apply map_ext. intros i.
        rewrite Hstep. f_equal. lia.
    + constructor.
      * simpl. rewrite statsTotal_computeStats. do 2 f_equal.
        symmetry. by eapply Forall2_length.
      * eapply Forall_impl; [exact Hall|]. simpl. intros pt ->.
        do 2 f_equal. symmetry. by eapply Forall2_length.
Qed.

End RunFacts.

(** ** The fate of one node over a run *)

Lemma stepped_infected_counter n n1 :
  stepped n n1 -> state n = infected ->
  infectionTime n1 = infectionTime n + 1.
Proof.
  intros (m & Ht & Hp) Hs.
  destruct Ht as [-> | [Hh _]]; [|congruence].
  unfold progressed in Hp. rewrite Hs in Hp. tauto.
Qed.

Lemma stepped_incubating n n1 :
  stepped n n1 -> state n = infected -> infectionTime n + 1 <= 7 ->
  state n1 = infected /\ infectionTime n1 = infectionTime n + 1.
Proof.
  intros (m & Ht & Hp) Hs Hle.
  destruct Ht as [-> | [Hh _]]; [|congruence].
  unfold progressed in Hp. rewrite Hs in Hp. destruct Hp as [Ht Hp].
  split; [|done]. destruct Hp as [? | [[_ ?] | [_ ?]]]; [done|lia|lia].
Qed.

Lemma stepped_from_quarantined n n1 :
  stepped n n1 -> state n = quarantined ->
  (state n1 = quarantined \/ state n1 = recovered) /\
  infectionTime n1 = infectionTime n /\
  quarantineTime n1 = quarantineTime n + 1.
Proof.
  intros (m & Ht & Hp) Hs.
  destruct Ht as [-> | [Hh _]]; [|congruence].
  unfold progressed in Hp. rewrite Hs in Hp.
  destruct Hp as (Hi & Hq & Hp). split; [|done]. tauto.
Qed.

Lemma steppedStar_from_quarantined n n1 :
  steppedStar n n1 -> state n = quarantined \/ state n = recovered ->
  (state n1 = quarantined \/ state n1 = recovered) /\
  infectionTime n1 = infectionTime n.
Proof.
  induction 1 as [|n m n1 Hs _ IH]; intros Hst; [done|].
  destruct Hst as [Hq | Hr].
  - destruct (stepped_from_quarantined _ _ Hs Hq) as (Hm & Hi & _).
    destruct (IH Hm) as [Hn1 Hi1]. split; [done|congruence].
  - apply stepped_terminal in Hs as ->; [|by right]. apply IH. by right.
Qed.

Section NodeFate.

Variable rng : nat -> Q.

(** The induction behind the theorem on incubation. *)
Lemma runSteps_incubating nows w p w1 p1 k n :
  stepping w ->
  runSteps rng nows w p = Some (w1, p1) ->
  nodes (simulation w) !! k = Some n ->
  state n = infected ->
  infectionTime n + Z.of_nat (length nows) <= 7 ->
  exists n1, nodes (simulation w1) !! k = Some n1 /\
             state n1 = infected /\
             infectionTime n1 = infectionTime n + Z.of_nat (length nows).
Proof.
  revert w p n. induction nows as [|now rest IH]; intros w p n Hst; simpl.
  - intros [= <- <-] Hn Hs _. exists n. split; [done|]. split; [done|lia].
  - destruct (fallbackSimulationLoop rng now w p) as [[w' p']|] eqn:Hstep;
      [|done].
    intros Hrest Hn Hs Hle.
    destruct (fallbackSimulationLoop_stepping rng _ _ _ _ _ Hst Hstep)
      as (Hst' & _ & _ & _ & _ & _ & _ & _ & _ & HF).
    destruct (Forall2_lookup_l _ _ _ _ _ HF Hn) as (m & Hm & Hnm).
    destruct (stepped_incubating _ _ Hnm Hs) as [Hsm Htm]; [lia|].
    destruct (IH _ _ _ Hst' Hrest Hm Hsm) as (n1 & Hn1 & Hs1 & Ht1); [lia|].
    exists n1. split; [done|]. split; [done|lia].
Qed.

(** X6.  Incubation.  While its incremented counter does not exceed 7, an
    Infected node stays Infected whatever the draws and the rates are:
    after [n] effective invocations with [infectionTime + n <= 7] it is
    Infected with its counter advanced by exactly [n]. *)
Theorem infected_for_seven_steps nows w p w1 p1 k n :
  stepping w ->
  runSteps rng nows w p = Some (w1, p1) ->
  nodes (simulation w) !! k = Some n ->
  state n = infected ->
  infectionTime n + Z.of_nat (length nows) <= 7 ->
  exists n1, nodes (simulation w1) !! k = Some n1 /\
             state n1 = infected /\
             infectionTime n1 = infectionTime n + Z.of_nat (length nows) /\
             infectionTime n1 <= 7.
Proof.
  intros Hst Hrun Hn Hs Hle.
  destruct (runSteps_incubating _ _ _ _ _ _ _ Hst Hrun Hn Hs Hle)
    as (n1 & Hn1 & Hs1 & Ht1).
  exists n1. repeat split; try done. lia.
Qed.

(** X7.  Quarantine protects.  Once a node is Quarantined at the start of
    an invocation, it is Quarantined or Recovered after any number of
    invocations: it is never Deceased, Infected or Healthy again, and its
    [infectionTime] no longer changes. *)
Theorem quarantined_never_dies nows w p w1 p1 k n :
  runSteps rng nows w p = Some (w1, p1) ->
  nodes (simulation w) !! k = Some n ->
  state n = quarantined ->
  exists n1, nodes (simulation w1) !! k = Some n1 /\
             (state n1 = quarantined \/ state n1 = recovered) /\
             infectionTime n1 = infectionTime n.
Proof.
  intros Hr Hn Hs.
  pose proof (runSteps_nodes rng _ _ _ _ _ Hr) as HF.
  destruct (Forall2_lookup_l _ _ _ _ _ HF Hn) as (n1 & Hn1 & Hst).
  exists n1. split; [done|].
  apply (steppedStar_from_quarantined _ _ Hst). by left.
Qed.

(** X8.  Where Deceased and Recovered come from.  A node found Deceased
    after an invocation was Deceased already or was Infected with an
    incremented counter above 14; a node found Recovered was Recovered
    already, or Infected with incremented counter above 14, or Quarantined
    with incremented quarantine counter above 14.  A Healthy node never
    dies or recovers within one invocation. *)
Theorem death_and_recovery_sources now w p w1 p1 k n n1 :
  fallbackSimulationLoop rng now w p = Some (w1, p1) ->
  nodes (simulation w) !! k = Some n ->
  nodes (simulation w1) !! k = Some n1 ->
  (state n1 = deceased ->
   state n = deceased \/
   (state n = infected /\ infectionTime n1 = infectionTime n + 1
    /\ 14 < infectionTime n1)) /\
  (state n1 = recovered ->
   state n = recovered \/
   (state n = infected /\ infectionTime n1 = infectionTime n + 1
    /\ 14 < infectionTime n1) \/
   (state n = quarantined /\ quarantineTime n1 = quarantineTime n + 1
    /\ 14 < quarantineTime n1)).
Proof.
  intros Hs Hn Hn1.
  destruct (step_lookup rng _ _ _ _ _ _ _ _ Hs Hn Hn1) as [-> | Hst];
    [by split; left|].
  destruct (state n) eqn:Hstate.
  - destruct (stepped_from_healthy _ _ Hst Hstate) as [-> | [Hi _]];
      split; intros; congruence.
  - pose proof (stepped_infected_counter _ _ Hst Hstate) as Hc.
    destruct Hst as (m & Ht & Hp).
    destruct Ht as [-> | [Hh _]]; [|congruence].
    unfold progressed in Hp. rewrite Hstate in Hp.
    destruct Hp as [_ [? | [[? ?] | [_ ?]]]];
      split; intros; try congruence; right; [|left]; done.
  - apply stepped_terminal in Hst as ->; [|by right].
    split; intros; [congruence|by left].
  - destruct (stepped_from_quarantined _ _ Hst Hstate) as ([?|?] & _ & Hq).
    + split; intros; congruence.
    + split; intros; [congruence|].
      right; right. split; [done|]. split; [done|].
      by eapply stepped_quarantine_exit.
  - apply stepped_terminal in Hst as ->; [|by left].
    split; intros; [by left|congruence].
Qed.

End NodeFate.

(** ** Extreme rates *)

Section ExtremeRates.

Variable rng : nat -> Q.

Lemma transmitEdge_never rate e ns p ns1 p1 :
  (forall k, Qltb (rng k) rate = false) ->
  transmitEdge rng rate e ns p = Some (ns1, p1) -> ns1 = ns.
Proof.
  intros Hno. unfold transmitEdge.
  destruct (ns !! source e); [|done]. destruct (ns !! target e); [|done].
  destruct (transmits _ _); [|by intros [= <- <-]].
  rewrite Hno. by intros [= <- <-].
Qed.

Lemma transmission_never rate es ns p ns1 p1 :
  (forall k, Qltb (rng k) rate = false) ->
  transmission rng rate es ns p = Some (ns1, p1) -> ns1 = ns.
Proof.
  intros Hno. revert ns p. induction es as [|e es IH]; intros ns p; simpl.
  - by intros [= <- <-].
  - destruct (transmitEdge rng rate e ns p) as [[ns' p']|] eqn:He; [|done].
    apply (transmitEdge_never _ _ _ _ _ _ Hno) in He as ->. apply IH.
Qed.

Lemma unit_draw_not_below_zero rate k :
  unitDraws rng -> (rate <= 0)%Q -> Qltb (rng k) rate = false.
Proof.
  intros Hu Hr. destruct (Qltb (rng k) rate) eqn:E; [|done].
  apply Qltb_true in E. destruct (Hu k) as [H0 _]. lra.
Qed.

Lemma unit_draw_below_one rate k :
  unitDraws rng -> (1 <= rate)%Q -> Qltb (rng k) rate = true.
Proof.
  intros Hu Hr. apply Qltb_true. destruct (Hu k) as [_ H1]. lra.
Qed.

Lemma progressed_healthy n n1 : progressed n n1 -> state n = healthy -> n1 = n.
Proof. unfold progressed. intros H Hs. by rewrite Hs in H. Qed.

(** With an infection rate that no draw is below, one invocation leaves
    every Healthy node exactly as it was. *)
Lemma step_no_infection now w p w1 p1 k n :
  (forall j, Qltb (rng j) (infectionRate (simulation w)) = false) ->
  fallbackSimulationLoop rng now w p = Some (w1, p1) ->
  nodes (simulation w) !! k = Some n -> state n = healthy ->
  nodes (simulation w1) !! k = Some n
  /\ infectionRate (simulation w1) = infectionRate (simulation w).
Proof.
  intros Hno. unfold fallbackSimulationLoop.
  destruct (negb _ || _); [by intros [= <- <-]|].
  destruct (transmission _ _ _ _ _) as [[ns1 q1]|] eqn:Ht; [|done].
  apply (transmission_never _ _ _ _ _ _ Hno) in Ht as ->.
  pose proof (progression_progressed rng now (simulation w)
                (nodes (simulation w)) (mkEnv q1 (nodeAnimations w))) as HF.
  destruct (progression _ _ _ _ _) as [ns2 env].
  intros [= <- <-] Hn Hh. simpl. split; [|done].
  destruct (Forall2_lookup_l _ _ _ _ _ HF Hn) as (n1 & Hn1 & Hp).
  by apply progressed_healthy in Hp as ->.
Qed.

(** X9.  No infection at rate zero.  With draws in [0, 1) and an infection
    rate of 0 (or below), a Healthy node is left exactly as it is by any
    number of invocations: the epidemic cannot spread. *)
Theorem zero_infection_rate_never_infects nows w p w1 p1 k n :
  unitDraws rng ->
  (infectionRate (simulation w) <= 0)%Q ->
  runSteps rng nows w p = Some (w1, p1) ->
  nodes (simulation w) !! k = Some n -> state n = healthy ->
  nodes (simulation w1) !! k = Some n.
Proof.
  intros Hu. revert w p. induction nows as [|now rest IH]; intros w p Hr;
    simpl.
  - by intros [= <- <-].
  - destruct (fallbackSimulationLoop rng now w p) as [[w' p']|] eqn:Hs;
      [|done].
    intros Hrest Hn Hh.
    destruct (step_no_infection now w p w' p' k n) as [Hn' Hrate]; try done.
    { intros j. by apply unit_draw_not_below_zero. }
    apply (IH w' p'); [by rewrite Hrate|done|done|done].
Qed.

(** Transmission never touches a node that is not Healthy. *)
Lemma transmitted_not_healthy n n1 :
  transmitted n n1 -> state n <> healthy -> n1 = n.
Proof. intros [-> | [? _]]; done. Qed.

Lemma transmission_keeps_infected rate es (ns : list Node) p ns1 p1 k n :
  transmission rng rate es ns p = Some (ns1, p1) ->
  ns !! k = Some n -> state n = infected -> ns1 !! k = Some n.
Proof.
  intros Ht Hn Hs.
  pose proof (transmission_transmitted rng _ _ _ _ _ _ Ht) as HF.
  destruct (Forall2_lookup_l _ _ _ _ _ HF Hn) as (n1 & Hn1 & Htr).
  apply transmitted_not_healthy in Htr as ->; [done|congruence].
Qed.

(** With a rate every draw is below, an edge between an Infected and a
    Healthy node infects the Healthy one, whichever endpoint it is. *)
Lemma transmitEdge_certain rate e (ns : list Node) p a b na nb :
  (forall k, Qltb (rng k) rate = true) ->
  (source e = a /\ target e = b) \/ (source e = b /\ target e = a) ->
  ns !! a = Some na -> state na = infected ->
  ns !! b = Some nb -> state nb = healthy ->
  transmitEdge rng rate e ns p = Some (<[b := infect nb]> ns, S p).
Proof.
  intros Hyes Hends Ha Hsa Hb Hsb. unfold transmitEdge.
  destruct Hends as [[-> ->] | [-> ->]]; rewrite Ha, Hb.
  - rewrite (transmits_infected_healthy _ _ Hsa Hsb), Hyes.
    rewrite bool_decide_eq_false_2; [done|congruence].
  - unfold transmits. rewrite (bool_decide_eq_true_2 _ Hsa).
    rewrite (bool_decide_eq_true_2 _ Hsb).
    rewrite (bool_decide_eq_false_2 (state nb = infected)) by congruence.
    simpl. by rewrite Hyes.
Qed.

Lemma transmission_certain rate es (ns : list Node) p ns1 p1 e a b na nb :
  (forall k, Qltb (rng k) rate = true) ->
  e ∈ es ->
  (source e = a /\ target e = b) \/ (source e = b /\ target e = a) ->
  ns !! a = Some na -> state na = infected ->
  ns !! b = Some nb -> state nb = healthy ->
  transmission rng rate es ns p = Some (ns1, p1) ->
  ns1 !! b = Some (infect nb).
Proof.
  intros Hyes. revert ns p. induction es as [|e0 es IH];
    intros ns p He Hends Ha Hsa Hb Hsb; [by apply elem_of_nil in He|].
  simpl. destruct (transmitEdge rng rate e0 ns p) as [[ns' p']|] eqn:He0;
    [|done].
  intros Hrest.
  pose proof (transmitEdge_transmitted rng _ _ _ _ _ _ He0) as HF.
  destruct (Forall2_lookup_l _ _ _ _ _ HF Ha) as (na' & Ha' & Htra).
  apply transmitted_not_healthy in Htra as ->; [|congruence].
  destruct (Forall2_lookup_l _ _ _ _ _ HF Hb) as (nb' & Hb' & Htrb).
  assert (nb' = infect nb -> ns1 !! b = Some (infect nb)) as Hdone.
  { intros ->. by eapply transmission_keeps_infected. }
  apply elem_of_cons in He as [<- | He].
  - apply Hdone.
    rewrite (transmitEdge_certain rate e ns p a b na nb) in He0 by done.
    injection He0 as <- <-.
    rewrite list_lookup_insert_eq in Hb' by (by eapply lookup_lt_Some).
    congruence.
  - destruct Htrb as [-> | [_ ->]]; [|by apply Hdone].
    by eapply (IH ns' p').
Qed.

(** X10.  Certain transmission.  When every draw is below the infection
    rate (a rate of 1 with draws in [0, 1)), a Healthy node that shares an
    edge with a node Infected at the start of an invocation is Infected,
    with counter 1, at its end. *)
Theorem certain_rate_infects_neighbour now w p w1 p1 e a b na nb :
  stepping w ->
  (forall k, Qltb (rng k) (infectionRate (simulation w)) = true) ->
  e ∈ edges (simulation w) ->
  (source e = a /\ target e = b) \/ (source e = b /\ target e = a) ->
  nodes (simulation w) !! a = Some na -> state na = infected ->
  nodes (simulation w) !! b = Some nb -> state nb = healthy ->
  fallbackSimulationLoop rng now w p = Some (w1, p1) ->
  exists nb1, nodes (simulation w1) !! b = Some nb1 /\
              state nb1 = infected /\ infectionTime nb1 = 1.
Proof.
  intros [Hrun Hback] Hyes He Hends Ha Hsa Hb Hsb.
  unfold fallbackSimulationLoop. rewrite Hrun, Hback. simpl.
  destruct (transmission _ _ _ _ _) as [[ns1 q1]|] eqn:Ht; [|done].
  pose proof (transmission_certain _ _ _ _ _ _ _ _ _ _ _
                Hyes He Hends Ha Hsa Hb Hsb Ht) as Hb1.
  pose proof (progression_progressed rng now (simulation w) ns1
                (mkEnv q1 (nodeAnimations w))) as HF.
  destruct (progression _ _ _ _ _) as [ns2 env].
  intros [= <- <-]. simpl.
  destruct (Forall2_lookup_l _ _ _ _ _ HF Hb1) as (nb1 & Hnb1 & Hp).
  apply progressed_fresh in Hp; [|done|done]. eauto.
Qed.

End ExtremeRates.

(** ** Certain quarantine *)

Section CertainQuarantine.

Variable rng : nat -> Q.

(** Every node of the progression result is [progressNode] of the node at
    the same index, run in some state of the draws and animations. *)
Lemma progression_pointwise now sim ns e :
  Forall2 (fun n n1 => exists e0, n1 = (progressNode rng now sim n e0).1)
          ns (progression rng now sim ns e).1.
Proof.
  revert e. induction ns as [|n ns IH]; intros e; simpl.
  - constructor.
  - unfold mbind, St_bind, bind, mret, St_ret, ret.
    destruct (progressNode rng now sim n e) as [n1 e1] eqn:Hn.
    specialize (IH e1).
    destruct (progression rng now sim ns e1) as [ns1 e2].
    constructor; [|done]. exists e. by rewrite Hn.
Qed.

Lemma startQuarantineAnimation_node now node anims :
  let n1 := (startQuarantineAnimation now node anims).1 in
  id n1 = id node /\ x n1 = x node /\ y n1 = y node /\
  state n1 = state node /\ infectionTime n1 = infectionTime node /\
  quarantineTime n1 = quarantineTime node /\
  is_Some (originalX n1) /\ is_Some (originalY n1).
Proof.
  unfold startQuarantineAnimation. cbn [fst].
  destruct (falsy (originalX node) || falsy (originalY node)) eqn:Hf.
  - simpl. repeat split; eauto.
  - apply orb_false_iff in Hf as [Hx Hy].
    repeat split.
    + by destruct (originalX node).
    + by destruct (originalY node).
Qed.

Lemma quarantineCheck_succeeds now qRate old n e :
  old <> quarantined -> 7 < infectionTime n ->
  Qltb (rng (pos e)) qRate = true ->
  quarantineCheck rng now qRate old n e
  = ((startQuarantineAnimation now
        (set_quarantineTime 0 (set_state quarantined n)) (anims e)).1,
     mkEnv (S (pos e))
       (startQuarantineAnimation now
          (set_quarantineTime 0 (set_state quarantined n)) (anims e)).2).
Proof.
  intros Hold Ht Hdraw. unfold quarantineCheck.
  apply Z.ltb_lt in Ht. rewrite Ht.
  unfold mbind, St_bind, bind, random. rewrite Hdraw.
  destruct (decide (old <> quarantined)); [|done].
  unfold startAnim. cbn [anims pos].
  by destruct (startQuarantineAnimation _ _ _).
Qed.

Lemma deathRecoveryCheck_skips dRate rRate n e :
  infectionTime n <= 14 -> deathRecoveryCheck rng dRate rRate n e = (n, e).
Proof.
  intros Ht. unfold deathRecoveryCheck.
  apply Z.ltb_ge in Ht. by rewrite Ht.
Qed.

(** An Infected node whose incremented counter lies in 8..14 and whose
    quarantine draw succeeds ends the loop body Quarantined. *)
Lemma progressNode_quarantines now sim n e :
  state n = infected ->
  7 <= infectionTime n < 14 ->
  Qltb (rng (pos e)) (quarantineRate sim) = true ->
  let n1 := (progressNode rng now sim n e).1 in
  state n1 = quarantined /\ quarantineTime n1 = 0 /\
  infectionTime n1 = infectionTime n + 1 /\
  is_Some (originalX n1) /\ is_Some (originalY n1).
Proof.
  intros Hs Ht Hdraw. unfold progressNode. rewrite Hs.
  unfold mbind, St_bind, bind.
  rewrite quarantineCheck_succeeds; [|done|simpl; lia|done].
  set (q := set_quarantineTime 0 _).
  pose proof (startQuarantineAnimation_node now q (anims e)) as Hq.
  cbv zeta in Hq. destruct Hq as (_ & _ & _ & Hst & Hit & Hqt & Hox & Hoy).
  rewrite deathRecoveryCheck_skips by (rewrite Hit; unfold q; simpl; lia).
  cbn [fst]. rewrite Hst, Hit, Hqt. unfold q. simpl. done.
Qed.

(** The step behind the theorem on certain quarantine. *)
Lemma step_certain_quarantine now w p w1 p1 k n :
  stepping w ->
  (forall j, Qltb (rng j) (quarantineRate (simulation w)) = true) ->
  nodes (simulation w) !! k = Some n ->
  state n = infected -> 7 <= infectionTime n < 14 ->
  fallbackSimulationLoop rng now w p = Some (w1, p1) ->
  exists n1, nodes (simulation w1) !! k = Some n1 /\
             state n1 = quarantined /\ quarantineTime n1 = 0 /\
             infectionTime n1 = infectionTime n + 1 /\
             is_Some (originalX n1) /\ is_Some (originalY n1).
Proof.
  intros [Hrun Hback] Hyes Hn Hs Ht.
  unfold fallbackSimulationLoop. rewrite Hrun, Hback. simpl.
  destruct (transmission _ _ _ _ _) as [[ns1 q1]|] eqn:Htr; [|done].
  pose proof (transmission_keeps_infected rng _ _ _ _ _ _ _ _ Htr Hn Hs)
    as Hn1.
  pose proof (progression_pointwise now (simulation w) ns1
                (mkEnv q1 (nodeAnimations w))) as HF.
  destruct (progression _ _ _ _ _) as [ns2 env].
  intros [= <- <-]. simpl.
  destruct (Forall2_lookup_l _ _ _ _ _ HF Hn1) as (n1 & Hn1' & e0 & ->).
  eexists. split; [done|].
  by apply progressNode_quarantines.
Qed.

(** X11.  Certain quarantine.  When every draw is below the quarantine rate
    (a rate of 1 with draws in [0, 1)), a node that starts an effective
    invocation Infected with [infectionTime] between 7 and 13 ends it
    Quarantined, with [quarantineTime = 0], its counter incremented and its
    position saved. *)
Theorem certain_rate_quarantines now w p w1 p1 k n :
  stepping w ->
  (forall j, Qltb (rng j) (quarantineRate (simulation w)) = true) ->
  nodes (simulation w) !! k = Some n ->
  state n = infected -> 7 <= infectionTime n < 14 ->
  fallbackSimulationLoop rng now w p = Some (w1, p1) ->
  exists n1, nodes (simulation w1) !! k = Some n1 /\
             state n1 = quarantined /\ quarantineTime n1 = 0 /\
             infectionTime n1 = infectionTime n + 1 /\
             7 < infectionTime n1 <= 14 /\
             is_Some (originalX n1) /\ is_Some (originalY n1).
Proof.
  intros Hst Hyes Hn Hs Ht Hstep.
  destruct (step_certain_quarantine now w p w1 p1 k n)
    as (n1 & Hn1 & Hs1 & Hq1 & Ht1 & Hox & Hoy); try done.
  exists n1. repeat split; try done; lia.
Qed.

(** X12.  Quarantined on the eighth step.  When every draw is below the
    quarantine rate, a node Infected with [infectionTime = t <= 7] is still
    Infected after [7 - t] effective invocations and Quarantined after one
    more: a node infected at counter 0 is Quarantined after exactly eight
    invocations. *)
Theorem quarantined_on_eighth_step nows now w p w1 p1 w2 p2 k n :
  stepping w ->
  (forall j, Qltb (rng j) (quarantineRate (simulation w)) = true) ->
  nodes (simulation w) !! k = Some n ->
  state n = infected ->
  infectionTime n + Z.of_nat (length nows) = 7 ->
  runSteps rng nows w p = Some (w1, p1) ->
  fallbackSimulationLoop rng now w1 p1 = Some (w2, p2) ->
  (exists n1, nodes (simulation w1) !! k = Some n1 /\ state n1 = infected) /\
  (exists n2, nodes (simulation w2) !! k = Some n2 /\
              state n2 = quarantined /\ infectionTime n2 = 8).
Proof.
  intros Hst Hyes Hn Hs Hlen Hrun Hlast.
  destruct (runSteps_incubating rng _ _ _ _ _ _ _ Hst Hrun Hn Hs)
    as (n1 & Hn1 & Hs1 & Ht1); [lia|].
  split; [by eauto|].
  destruct (runSteps_flags rng _ _ _ _ _ Hst Hrun)
    as (Hst1 & _ & _ & _ & _ & _ & _ & Hq).
  destruct (step_certain_quarantine now w1 p1 w2 p2 k n1)
    as (n2 & Hn2 & Hs2 & _ & Ht2 & _); try done.
  - by rewrite Hq.
  - lia.
  - exists n2. split; [done|]. split; [done|lia].
Qed.

End CertainQuarantine.

(** ** Quarantine slots and animations *)

Lemma clamp_inside (lo hi v : Q) :
  (lo <= v)%Q -> (v <= hi)%Q -> (Qmin hi (Qmax lo v) == v)%Q.
Proof.
  intros Hlo Hhi. rewrite (Q.max_r lo v Hlo). by apply Q.min_r.
Qed.

Lemma quarantineSlotX_range i :
  ((7125 # 10000) <= quarantineSlotX i)%Q
  /\ (quarantineSlotX i <= (9375 # 10000))%Q.
Proof.
  unfold quarantineSlotX, QUARANTINE_AREA. cbn [ax ay width height].
  assert (0 <= inject_Z (Z.of_nat (i mod 10)))%Q as H0.
  { change 0%Q with (inject_Z 0). rewrite <- Zle_Qle. lia. }
  assert (inject_Z (Z.of_nat (i mod 10)) <= 9)%Q as H9.
  { change 9%Q with (inject_Z 9). rewrite <- Zle_Qle.
    pose proof (Nat.mod_upper_bound i 10). lia. }
  assert ((25 # 100) / 10 == 1 # 40)%Q as E by reflexivity.
  rewrite E. split; lra.
Qed.

Lemma quarantineSlotY_range i :
  ((7125 # 10000) <= quarantineSlotY i)%Q
  /\ (quarantineSlotY i <= (9375 # 10000))%Q.
Proof.
  unfold quarantineSlotY, QUARANTINE_AREA. cbn [ax ay width height].
  assert (0 <= inject_Z (Z.of_nat (i mod 100 / 10)))%Q as H0.
  { change 0%Q with (inject_Z 0). rewrite <- Zle_Qle. lia. }
  assert (inject_Z (Z.of_nat (i mod 100 / 10)) <= 9)%Q as H9.
  { change 9%Q with (inject_Z 9). rewrite <- Zle_Qle.
    pose proof (Nat.mod_upper_bound i 100).
    assert (i mod 100 / 10 < 10)%nat
      by (apply Nat.Div0.div_lt_upper_bound; lia).
    lia. }
  assert ((25 # 100) / 10 == 1 # 40)%Q as E by reflexivity.
  rewrite E. split; lra.
Qed.

Lemma slot_clampX i :
  (Qmin (ax QUARANTINE_AREA + width QUARANTINE_AREA - (1 # 100))
        (Qmax (ax QUARANTINE_AREA + (1 # 100)) (quarantineSlotX i))
   == quarantineSlotX i)%Q.
Proof.
  destruct (quarantineSlotX_range i).
  apply clamp_inside; unfold QUARANTINE_AREA; cbn [ax width]; lra.
Qed.

Lemma slot_clampY i :
  (Qmin (ay QUARANTINE_AREA + height QUARANTINE_AREA - (1 # 100))
        (Qmax (ay QUARANTINE_AREA + (1 # 100)) (quarantineSlotY i))
   == quarantineSlotY i)%Q.
Proof.
  destruct (quarantineSlotY_range i).
  apply clamp_inside; unfold QUARANTINE_AREA; cbn [ay height]; lra.
Qed.

(** X13.  The quarantine slot.  [startQuarantineAnimation] registers, under
    the node's id, an animation that starts at the node's position and ends
    at its slot; the slot lies strictly inside the quarantine rectangle, so
    the clamping never moves it; nodes whose ids agree modulo 100 share a
    slot; no other animation is touched. *)
Theorem quarantine_slot_inside_area now node anims :
  let r := startQuarantineAnimation now node anims in
  (exists a, r.2 !! id node = Some a /\
     startX a = x node /\ startY a = y node /\
     startTime a = now /\ duration a = ANIMATION_DURATION /\
     (targetX a == quarantineSlotX (id node))%Q /\
     (targetY a == quarantineSlotY (id node))%Q /\
     strictlyBetween (ax QUARANTINE_AREA)
       (ax QUARANTINE_AREA + width QUARANTINE_AREA) (targetX a) /\
     strictlyBetween (ay QUARANTINE_AREA)
       (ay QUARANTINE_AREA + height QUARANTINE_AREA) (targetY a)) /\
  (forall j, j <> id node -> r.2 !! j = anims !! j) /\
  (forall i j, (i mod 100 = j mod 100)%nat ->
     quarantineSlotX i = quarantineSlotX j
     /\ quarantineSlotY i = quarantineSlotY j).
Proof.
  cbv zeta. split; [|split].
  - unfold startQuarantineAnimation. cbn [fst snd].
    eexists. split; [apply lookup_insert_eq|].
    cbn [startX startY targetX targetY startTime duration].
    destruct (quarantineSlotX_range (id node)) as [Hx0 Hx1].
    destruct (quarantineSlotY_range (id node)) as [Hy0 Hy1].
    split; [by destruct (_ || _)|]. split; [by destruct (_ || _)|].
    split; [done|]. split; [done|].
    split; [apply slot_clampX|]. split; [apply slot_clampY|].
    unfold strictlyBetween. rewrite slot_clampX, slot_clampY.
    unfold QUARANTINE_AREA. cbn [ax ay width height].
    repeat split; lra.
  - intros j Hj. unfold startQuarantineAnimation. cbn [snd].
    by rewrite lookup_insert_ne.
  - intros i j Hij. unfold quarantineSlotX, quarantineSlotY.
    assert (forall a, ((a mod 100) mod 10 = a mod 10)%nat) as Hmod.
    { intros a.
      apply (Nat.mod_unique a 10 (10 * (a / 100) + (a mod 100) / 10)).
      - apply Nat.mod_upper_bound. lia.
      - pose proof (Nat.div_mod_eq a 100).
        pose proof (Nat.div_mod_eq (a mod 100) 10). lia. }
    assert (i mod 10 = j mod 10)%nat as H10
      by (rewrite <- (Hmod i), <- (Hmod j); by rewrite Hij).
    by rewrite H10, Hij.
Qed.

Lemma animProgress_range anim now :
  0 < duration anim -> startTime anim <= now ->
  (0 <= animProgress anim now)%Q /\ (animProgress anim now <= 1)%Q.
Proof.
  intros Hd Hn. unfold animProgress. split.
  - apply Q.min_glb; [|lra].
    apply Qmult_le_0_compat.
    + change 0%Q with (inject_Z 0). rewrite <- Zle_Qle. lia.
    + apply Qinv_le_0_compat. change 0%Q with (inject_Z 0).
      rewrite <- Zle_Qle. lia.
  - apply Q.le_min_r.
Qed.

Lemma animationDone_iff anim now :
  0 < duration anim ->
  animationDone now anim = true <-> startTime anim + duration anim <= now.
Proof.
  intros Hd. unfold animationDone, animProgress.
  rewrite Qle_bool_iff.
  assert (0 < inject_Z (duration anim))%Q as Hdq.
  { change 0%Q with (inject_Z 0). rewrite <- Zlt_Qlt. lia. }
  split.
  - intros H1.
    assert (1 <= inject_Z (now - startTime anim) / inject_Z (duration anim))%Q
      as Hq by (eapply Qle_trans; [exact H1|apply Q.le_min_l]).
    apply (Qmult_le_compat_r _ _ (inject_Z (duration anim))) in Hq; [|lra].
    rewrite Qmult_1_l in Hq.
    unfold Qdiv in Hq. rewrite <- Qmult_assoc in Hq.
    rewrite (Qmult_comm (/ _)), Qmult_inv_r, Qmult_1_r in Hq by lra.
    rewrite <- Zle_Qle in Hq. lia.
  - intros Hle. apply Q.min_glb; [|lra].
    apply Qle_shift_div_l; [done|]. rewrite Qmult_1_l.
    rewrite <- Zle_Qle. lia.
Qed.

Lemma positionAt_between_up (s t p : Q) :
  (s <= t)%Q -> (0 <= p)%Q -> (s <= positionAt s t p)%Q
                              /\ (positionAt s t p <= t)%Q.
Proof.
  intros Hst Hp. split.
  - eapply Qle_trans; [|apply (positionAt_mono_up s t 0 p Hst Hp)].
    unfold positionAt, interpolate, easeProgress, cube. simpl. lra.
  - destruct (Qlt_le_dec p 1) as [Hlt | Hge].
    + rewrite <- (positionAt_snap s t 1) at 2 by lra.
      apply positionAt_mono_up; lra.
    + rewrite positionAt_snap by done. lra.
Qed.

Lemma positionAt_between_down (s t p : Q) :
  (t <= s)%Q -> (0 <= p)%Q -> (t <= positionAt s t p)%Q
                              /\ (positionAt s t p <= s)%Q.
Proof.
  intros Hst Hp. split.
  - destruct (Qlt_le_dec p 1) as [Hlt | Hge].
    + rewrite <- (positionAt_snap s t 1) at 1 by lra.
      apply positionAt_mono_down; lra.
    + rewrite positionAt_snap by done. lra.
  - eapply Qle_trans; [apply (positionAt_mono_down s t 0 p Hst Hp)|].
    unfold positionAt, interpolate, easeProgress, cube. simpl. lra.
Qed.

Lemma updateAnimation_sameCompartment now anim node :
  sameCompartment node (updateAnimation now anim node).1.
Proof.
  unfold updateAnimation, sameCompartment.
  destruct (Qle_bool 1 _); simpl; [|done]. by destruct (decide _).
Qed.

Lemma updateAnimation_done now anim node :
  (updateAnimation now anim node).2 = animationDone now anim.
Proof.
  unfold updateAnimation, animationDone. by destruct (Qle_bool 1 _).
Qed.

(** X14.  An animation never overshoots and ends on time.  While it runs
    (clock not before its start, positive duration) each coordinate that
    [updateAnimations] writes lies between the start and the target of the
    animation; the animation is put on the removal list exactly when the
    elapsed time has reached the duration; the node's id, compartment and
    counters are not touched. *)
Theorem animation_stays_on_segment now anim node :
  0 < duration anim -> startTime anim <= now ->
  let r := updateAnimation now anim node in
  ((startX anim <= targetX anim)%Q ->
   (startX anim <= x r.1)%Q /\ (x r.1 <= targetX anim)%Q) /\
  ((targetX anim <= startX anim)%Q ->
   (targetX anim <= x r.1)%Q /\ (x r.1 <= startX anim)%Q) /\
  ((startY anim <= targetY anim)%Q ->
   (startY anim <= y r.1)%Q /\ (y r.1 <= targetY anim)%Q) /\
  ((targetY anim <= startY anim)%Q ->
   (targetY anim <= y r.1)%Q /\ (y r.1 <= startY anim)%Q) /\
  (r.2 = true <-> startTime anim + duration anim <= now) /\
  sameCompartment node r.1.
Proof.
  intros Hd Hn r.
  destruct (updateAnimation_position now anim node) as [Hx Hy].
  destruct (animProgress_range anim now Hd Hn) as [Hp0 _].
  unfold r. rewrite Hx, Hy.
  split; [intros; by apply positionAt_between_up|].
  split; [intros; by apply positionAt_between_down|].
  split; [intros; by apply positionAt_between_up|].
  split; [intros; by apply positionAt_between_down|].
  split; [|apply updateAnimation_sameCompartment].
  rewrite updateAnimation_done. by apply animationDone_iff.
Qed.

(** ** The animation pass *)

Lemma updateAnimation_finished now anim node :
  animationDone now anim = true ->
  updateAnimation now anim node
  = (if decide (state node = quarantined)
     then set_position (targetX anim) (targetY anim) node
     else set_original None None
            (set_position (targetX anim) (targetY anim) node),
     true).
Proof.
  unfold animationDone, updateAnimation. intros ->. simpl.
  by destruct (decide _).
Qed.

(** X15.  Quarantine and release bring a node back.  A node that enters
    quarantine with no saved position has its position saved; when the
    animation to its slot completes it sits on the slot and keeps the saved
    position; when it is released and the animation back completes, it is
    exactly at the position it had on entering quarantine, and the saved
    position is cleared. *)
Theorem quarantine_round_trip t0 t1 t2 t3 node anims :
  falsy (originalX node) = true \/ falsy (originalY node) = true ->
  t0 + ANIMATION_DURATION <= t1 ->
  t2 + ANIMATION_DURATION <= t3 ->
  let r0 := startQuarantineAnimation t0 (set_state quarantined node) anims in
  exists a0, r0.2 !! id node = Some a0 /\
    let r1 := updateAnimation t1 a0 r0.1 in
    r1.2 = true /\
    (x r1.1 == quarantineSlotX (id node))%Q /\
    (y r1.1 == quarantineSlotY (id node))%Q /\
    originalX r1.1 = Some (x node) /\ originalY r1.1 = Some (y node) /\
    let released := set_state recovered r1.1 in
    exists a2,
      endQuarantineAnimation t2 released (delete (id node) r0.2) !! id node
      = Some a2 /\
      let r3 := updateAnimation t3 a2 released in
      r3.2 = true /\ x r3.1 = x node /\ y r3.1 = y node /\
      originalX r3.1 = None /\ originalY r3.1 = None /\
      state r3.1 = recovered.
Proof.
  intros Hf H1 H3. cbv zeta.
  unfold startQuarantineAnimation. cbn [fst snd].
  assert (falsy (originalX (set_state quarantined node))
          || falsy (originalY (set_state quarantined node)) = true) as ->.
  { simpl. destruct Hf as [-> | ->]; [done|by rewrite orb_true_r]. }
  eexists. split; [apply lookup_insert_eq|].
  rewrite updateAnimation_finished
    by (apply animationDone_iff; simpl; unfold ANIMATION_DURATION in *; lia).
  cbn [fst snd]. simpl state.
  destruct (decide (quarantined = quarantined)) as [_|]; [|done].
  cbn [x y targetX targetY set_position set_original set_state originalX
       originalY].
  split; [done|]. split; [apply slot_clampX|]. split; [apply slot_clampY|].
  split; [done|]. split; [done|].
  unfold endQuarantineAnimation.
  cbn [originalX originalY set_state set_position id].
  eexists. split; [apply lookup_insert_eq|].
  rewrite updateAnimation_finished
    by (apply animationDone_iff; simpl; unfold ANIMATION_DURATION in *; lia).
  cbn [fst snd]. simpl state.
  destruct (decide (recovered = quarantined)); [done|].
  simpl. repeat (split; [done|]).
  exact (proj1 (proj2 (updateAnimation_sameCompartment _ _ _))).
Qed.

Lemma sameCompartment_refl n : sameCompartment n n.
Proof. by unfold sameCompartment. Qed.

Lemma sameCompartment_trans n n1 n2 :
  sameCompartment n n1 -> sameCompartment n1 n2 -> sameCompartment n n2.
Proof. unfold sameCompartment. intros (?&?&?&?) (?&?&?&?). repeat split; congruence. Qed.

Lemma Forall2_sameCompartment_refl (ns : list Node) :
  Forall2 sameCompartment ns ns.
Proof.
  apply Forall_Forall2_diag, Forall_forall. intros. apply sameCompartment_refl.
Qed.

Lemma Forall2_sameCompartment_insert (ns0 ns : list Node) k n n1 :
  Forall2 sameCompartment ns0 ns -> ns !! k = Some n ->
  sameCompartment n n1 -> Forall2 sameCompartment ns0 (<[k := n1]> ns).
Proof.
  intros HF Hk Hs. apply Forall2_same_length_lookup_2.
  - rewrite length_insert. by eapply Forall2_length.
  - intros j a b Ha Hb. destruct (decide (k = j)) as [-> | Hne].
    + rewrite list_lookup_insert_eq in Hb by (by eapply lookup_lt_Some).
      injection Hb as <-.
      eapply sameCompartment_trans; [|exact Hs].
      by eapply Forall2_lookup_lr.
    + rewrite list_lookup_insert_ne in Hb by done.
      by eapply Forall2_lookup_lr.
Qed.

Lemma animateEntry_sameCompartment now ns0 acc entry :
  Forall2 sameCompartment ns0 acc.1 ->
  Forall2 sameCompartment ns0 (animateEntry now acc entry).1.
Proof.
  intros HF. unfold animateEntry.
  destruct (list_find _ _) as [[k node]|] eqn:Hfind; [|done].
  apply list_find_Some in Hfind as (Hk & _ & _). cbn [fst].
  eapply Forall2_sameCompartment_insert; [done|done|].
  apply updateAnimation_sameCompartment.
Qed.

Lemma updateAnimationsIn_sameCompartment now entries ns anims :
  Forall2 sameCompartment ns (updateAnimationsIn now entries ns anims).1.
Proof.
  unfold updateAnimationsIn. cbn [fst].
  assert (forall acc, Forall2 sameCompartment ns acc.1 ->
            Forall2 sameCompartment ns
              (fold_left (animateEntry now) entries acc).1) as H.
  { induction entries as [|en entries IH]; intros acc Hacc; [done|].
    simpl. apply IH. by apply animateEntry_sameCompartment. }
  apply H. apply Forall2_sameCompartment_refl.
Qed.

Lemma animationLoop_sameCompartment now w :
  Forall2 sameCompartment (nodes (simulation w))
          (nodes (simulation (animationLoop now w)))
  /\ running (simulation (animationLoop now w)) = running (simulation w)
  /\ backendConnected (simulation (animationLoop now w))
     = backendConnected (simulation w)
  /\ step (simulation (animationLoop now w)) = step (simulation w)
  /\ edges (simulation (animationLoop now w)) = edges (simulation w)
  /\ infectionRate (simulation (animationLoop now w))
     = infectionRate (simulation w)
  /\ realtimeChart (animationLoop now w) = realtimeChart w.
Proof.
  unfold animationLoop. destruct (_ || _); simpl.
  - split; [|done].
    apply (updateAnimationsIn_sameCompartment now _ _ (nodeAnimations w)).
  - split; [apply Forall2_sameCompartment_refl|done].
Qed.

Lemma list_find_id (ns : list Node) i :
  idsAreIndices ns ->
  list_find (fun n => id n = i) ns
  = match ns !! i with Some n => Some (i, n) | None => None end.
Proof.
  intros Hids. destruct (ns !! i) as [n|] eqn:Hi.
  - apply list_find_Some. split; [done|]. split; [by apply Hids|].
    intros j m Hj Hlt Hid. apply Hids in Hj. lia.
  - apply list_find_None, Forall_forall. intros m Hm Hid.
    apply list_elem_of_lookup in Hm as [j Hj].
    pose proof (Hids _ _ Hj). congruence.
Qed.

Lemma idsAreIndices_insert (ns : list Node) k n1 :
  idsAreIndices ns -> id n1 = k -> idsAreIndices (<[k := n1]> ns).
Proof.
  intros Hids Hid j m Hj. destruct (decide (k = j)) as [-> | Hne].
  - rewrite list_lookup_insert_eq in Hj
      by (rewrite <- (length_insert ns j n1); by eapply lookup_lt_Some).
    congruence.
  - rewrite list_lookup_insert_ne in Hj by done. by apply Hids.
Qed.

Lemma animateEntry_ids now (ns : list Node) rm i a :
  idsAreIndices ns ->
  animateEntry now (ns, rm) (i, a)
  = match ns !! i with
    | Some n => (<[i := (updateAnimation now a n).1]> ns,
                 if animationDone now a then rm ++ [i] else rm)
    | None => (ns, rm ++ [i])
    end.
Proof.
  intros Hids. unfold animateEntry. cbn [fst snd].
  rewrite (list_find_id ns i Hids).
  destruct (ns !! i); [|done]. by rewrite updateAnimation_done.
Qed.

(** The loop over the entries, when node [k] has id [k] and no id occurs
    twice among the entries. *)
Lemma fold_animateEntry now (l : list (nat * Animation)) (ns : list Node) rm :
  idsAreIndices ns -> NoDup l.*1 ->
  let r := fold_left (animateEntry now) l (ns, rm) in
  length r.1 = length ns /\
  (forall k n a, ns !! k = Some n -> (k, a) ∈ l ->
     r.1 !! k = Some (updateAnimation now a n).1) /\
  (forall k n, ns !! k = Some n -> k ∉ l.*1 -> r.1 !! k = Some n) /\
  (forall i, i ∈ r.2 <->
     i ∈ rm \/ exists a, (i, a) ∈ l /\
                         (ns !! i = None \/ animationDone now a = true)).
Proof.
  revert ns rm. induction l as [|[i a] l IH]; intros ns rm Hids Hnd.
  - cbn [fold_left fst snd]. repeat split; try done.
    + intros k n a _ Hin. by apply elem_of_nil in Hin.
    + by left.
    + intros [? | (a & Hin & _)]; [done|by apply elem_of_nil in Hin].
  - rewrite fmap_cons in Hnd. cbn [fst] in Hnd.
    apply NoDup_cons in Hnd as [Hi Hnd]. cbn [fold_left].
    rewrite (animateEntry_ids now ns rm i a Hids).
    destruct (ns !! i) as [n0|] eqn:Hn0.
    + set (ns1 := <[i := (updateAnimation now a n0).1]> ns).
      assert (idsAreIndices ns1) as Hids1.
      { apply idsAreIndices_insert; [done|].
        destruct (updateAnimation_sameCompartment now a n0) as [-> _].
        by apply Hids. }
      destruct (IH ns1 (if animationDone now a then rm ++ [i] else rm)
                  Hids1 Hnd) as (Hlen & Hin & Hout & Hrm).
      assert (i < length ns)%nat as Hlt by (by eapply lookup_lt_Some).
      split; [by rewrite Hlen; unfold ns1; rewrite length_insert|].
      split; [|split].
      * intros k n a' Hk Hel. apply elem_of_cons in Hel as [[= -> ->] | Hel].
        -- rewrite Hn0 in Hk. injection Hk as <-.
           apply Hout; [|done]. unfold ns1. by apply list_lookup_insert_eq.
        -- assert (k <> i).
           { intros ->. apply Hi. apply list_elem_of_fmap. by exists (i, a'). }
           apply Hin; [|done]. unfold ns1. by rewrite list_lookup_insert_ne.
      * intros k n Hk Hnot. apply not_elem_of_cons in Hnot as [Hki Hnot].
        apply Hout; [|done]. unfold ns1. by rewrite list_lookup_insert_ne.
      * intros j. rewrite Hrm. split.
        -- intros [Hj | (a' & Hel & Hcond)].
           ++ destruct (animationDone now a) eqn:Hd; [|by left].
              apply elem_of_app in Hj as [Hj | Hj]; [by left|].
              apply list_elem_of_singleton in Hj as ->.
              right. exists a. split; [by left|by right].
           ++ right. exists a'. split; [by right|].
              destruct Hcond as [Hnone | Hd]; [|by right]. left.
              apply lookup_ge_None. apply lookup_ge_None in Hnone.
              unfold ns1 in Hnone. by rewrite length_insert in Hnone.
        -- intros [Hj | (a' & Hel & Hcond)].
           ++ left. destruct (animationDone now a); [|done].
              apply elem_of_app. by left.
           ++ apply elem_of_cons in Hel as [[= -> ->] | Hel].
              ** destruct Hcond as [Hnone | Hd]; [congruence|].
                 left. rewrite Hd. apply elem_of_app. right.
                 by apply list_elem_of_singleton.
              ** right. exists a'. split; [done|].
                 destruct Hcond as [Hnone | Hd]; [|by right]. left.
                 apply lookup_ge_None. apply lookup_ge_None in Hnone.
                 unfold ns1. by rewrite length_insert.
    + destruct (IH ns (rm ++ [i]) Hids Hnd) as (Hlen & Hin & Hout & Hrm).
      split; [done|]. split; [|split].
      * intros k n a' Hk Hel. apply elem_of_cons in Hel as [[= -> ->] | Hel];
          [congruence|]. by apply Hin.
      * intros k n Hk Hnot. apply not_elem_of_cons in Hnot as [Hki Hnot].
        by apply Hout.
      * intros j. rewrite Hrm. split.
        -- intros [Hj | (a' & Hel & Hcond)].
           ++ apply elem_of_app in Hj as [Hj | Hj]; [by left|].
              apply list_elem_of_singleton in Hj as ->.
              right. exists a. split; [by left|by left].
           ++ right. exists a'. split; [by right|done].
        -- intros [Hj | (a' & Hel & Hcond)].
           ++ left. apply elem_of_app. by left.
           ++ apply elem_of_cons in Hel as [[= -> ->] | Hel].
              ** left. apply elem_of_app. right.
                 by apply list_elem_of_singleton.
              ** right. by exists a'.
Qed.

(** X16.  One pass of [updateAnimations].  When node [k] has id [k]: a node
    with a registered animation is moved by that animation and only by it,
    any other node is left as it is; an animation is kept exactly when its
    node exists and it is not complete; and no node changes id, compartment
    or counter. *)
Theorem updateAnimations_per_node now (ns : list Node)
    (anims : gmap nat Animation) :
  idsAreIndices ns ->
  let r := updateAnimations now ns anims in
  length r.1 = length ns /\
  (forall k n, ns !! k = Some n ->
     r.1 !! k = Some (match anims !! k with
                      | Some a => (updateAnimation now a n).1
                      | None => n
                      end)) /\
  (forall i a, r.2 !! i = Some a <->
     anims !! i = Some a /\ is_Some (ns !! i)
     /\ animationDone now a = false) /\
  Forall2 sameCompartment ns r.1.
Proof.
  intros Hids r.
  destruct (fold_animateEntry now (map_to_list anims) ns [] Hids
              (NoDup_fst_map_to_list anims)) as (Hlen & Hin & Hout & Hrm).
  unfold r, updateAnimations, updateAnimationsIn. cbn [fst snd].
  split; [done|]. split; [|split].
  - intros k n Hk. destruct (anims !! k) as [a|] eqn:Ha.
    + apply Hin; [done|]. by apply elem_of_map_to_list.
    + apply Hout; [done|]. intros Hel.
      apply list_elem_of_fmap in Hel as ([k' a] & -> & Hel).
      apply elem_of_map_to_list in Hel. simpl in Ha. congruence.
  - intros i a. rewrite lookup_foldr_delete_Some, Hrm. split.
    + intros [Hnot Ha]. split; [done|].
      destruct (ns !! i) as [n|] eqn:Hn.
      * split; [by eexists|].
        destruct (animationDone now a) eqn:Hd; [|done].
        exfalso. apply Hnot. right. exists a.
        split; [by apply elem_of_map_to_list|by right].
      * exfalso. apply Hnot. right. exists a.
        split; [by apply elem_of_map_to_list|by left].
    + intros (Ha & [n Hn] & Hd). split; [|done].
      intros [Hel | (a' & Hel & Hcond)]; [by apply elem_of_nil in Hel|].
      apply elem_of_map_to_list in Hel.
      assert (a' = a) as -> by congruence.
      destruct Hcond; congruence.
  - apply (updateAnimationsIn_sameCompartment now (map_to_list anims) ns anims).
Qed.

(** ** The fallback network as a whole *)

Section NetworkFacts.

Variable rng : nat -> Q.

Lemma nodeLoop_spec count i p :
  let r := nodeLoop rng count i p in
  length r.1 = count /\ r.2 = (p + 2 * count)%nat /\
  forall k nd, r.1 !! k = Some nd ->
    n_id nd = (i + k)%nat /\ n_state nd = healthy /\
    n_x nd = (rng (p + 2 * k)%nat * (5 # 10) + (1 # 10))%Q /\
    n_y nd = (rng (S (p + 2 * k)) * (5 # 10) + (1 # 10))%Q.
Proof.
  revert i p. induction count as [|count IH]; intros i p.
  - cbn. split; [done|]. split; [lia|]. intros k nd Hk. done.
  - cbn [nodeLoop]. specialize (IH (S i) (S (S p))).
    destruct (nodeLoop rng count (S i) (S (S p))) as [rest p1].
    cbn [fst snd] in *. destruct IH as (Hlen & Hp & Hall).
    split; [simpl; lia|]. split; [lia|].
    intros [|k] nd Hk.
    + injection Hk as <-. cbn. rewrite !Nat.add_0_r. done.
    + cbn in Hk. destruct (Hall k nd Hk) as (Hid & Hs & Hx & Hy).
      split; [lia|]. split; [done|].
      replace (p + 2 * S k)%nat with (S (S p) + 2 * k)%nat by lia. done.
Qed.

Lemma createFallbackNetwork_parts p :
  createFallbackNetwork rng p
  = ((nodeLoop rng nodeCount 0 p).1,
     (edgeLoop rng nodeCount nodeCount 0 (p + 2 * nodeCount)).1,
     (edgeLoop rng nodeCount nodeCount 0 (p + 2 * nodeCount)).2).
Proof.
  unfold createFallbackNetwork.
  destruct (nodeLoop_spec nodeCount 0 p) as (_ & Hp & _).
  destruct (nodeLoop rng nodeCount 0 p) as [ns p1]. cbn [fst snd] in *.
  rewrite Hp. by destruct (edgeLoop rng nodeCount nodeCount 0 _).
Qed.

Hypothesis rng_unit : unitDraws rng.

Lemma connectNode_range n i p :
  (i < n)%nat ->
  Forall (fun e => source e = i /\ target e <> i /\ (target e < n)%nat)
         (connectNode rng n i p).1.
Proof.
  intros Hi. unfold connectNode.
  destruct (connectLoop_spec rng n i (numConnections rng p) ∅ (S p))
    as (_ & _ & Hall).
  eapply Forall_impl; [exact Hall|]. cbn beta.
  intros e (Hs & Ht & _ & q & Hq). split; [done|]. split; [done|].
  rewrite Hq. apply randomBelow_range; [done|lia].
Qed.

Lemma edgeLoop_range n count i0 p :
  (i0 + count <= n)%nat ->
  Forall (fun e => (source e < n)%nat /\ (target e < n)%nat
                   /\ target e <> source e)
         (edgeLoop rng n count i0 p).1.
Proof.
  revert i0 p. induction count as [|count IH]; intros i0 p Hle.
  - constructor.
  - cbn [edgeLoop].
    pose proof (connectNode_range n i0 p ltac:(lia)) as Hn.
    destruct (connectNode rng n i0 p) as [es p1].
    specialize (IH (S i0) p1 ltac:(lia)).
    destruct (edgeLoop rng n count (S i0) p1) as [rest p2].
    cbn [fst] in *. apply Forall_app. split; [|done].
    eapply Forall_impl; [exact Hn|]. cbn beta.
    intros e (Hs & Ht & Hlt). rewrite Hs. split; [lia|]. split; [done|done].
Qed.

(** X17.  The nodes of the fallback network.  [createFallbackNetwork]
    creates [nodeCount] nodes; node [k] has id [k], is Healthy, and lies in
    the square [0.1, 0.6) x [0.1, 0.6), left of and above the quarantine
    rectangle; the node loop consumes two draws per node. *)
Theorem fallback_network_nodes p :
  let net := createFallbackNetwork rng p in
  length net.1.1 = nodeCount /\
  (forall k nd, net.1.1 !! k = Some nd ->
     n_id nd = k /\ n_state nd = healthy /\
     ((1 # 10) <= n_x nd)%Q /\ (n_x nd < (6 # 10))%Q /\
     ((1 # 10) <= n_y nd)%Q /\ (n_y nd < (6 # 10))%Q /\
     (n_x nd < ax QUARANTINE_AREA)%Q /\ (n_y nd < ay QUARANTINE_AREA)%Q) /\
  net.1.2 = (edgeLoop rng nodeCount nodeCount 0 (p + 2 * nodeCount)).1 /\
  (p = 0%nat -> net.1.2 = createFallbackEdges rng nodeCount).
Proof.
  cbv zeta. rewrite createFallbackNetwork_parts. cbn [fst snd].
  destruct (nodeLoop_spec nodeCount 0 p) as (Hlen & _ & Hall).
  split; [done|]. split; [|split; [done|by intros ->]].
  intros k nd Hk. destruct (Hall k nd Hk) as (Hid & Hs & Hx & Hy).
  destruct (rng_unit (p + 2 * k)%nat) as [Hx0 Hx1].
  destruct (rng_unit (S (p + 2 * k))) as [Hy0 Hy1].
  rewrite Hx, Hy. unfold QUARANTINE_AREA. cbn [ax ay].
  repeat split; try done; lra.
Qed.

(** X18.  The edges of the fallback network.  Every edge that
    [createFallbackNetwork] pushes joins two distinct existing nodes, so in
    a page state that holds this network every edge is in range. *)
Theorem fallback_network_edges_in_range p w :
  Forall (fun e => (source e < nodeCount)%nat /\ (target e < nodeCount)%nat
                   /\ target e <> source e)
         (createFallbackNetwork rng p).1.2 /\
  (length (nodes (simulation w)) = nodeCount ->
   edges (simulation w) = (createFallbackNetwork rng p).1.2 ->
   edgesInRange w).
Proof.
  rewrite createFallbackNetwork_parts. cbn [fst snd].
  pose proof (edgeLoop_range nodeCount nodeCount 0 (p + 2 * nodeCount)
                ltac:(lia)) as Hr.
  split; [done|]. intros Hlen He. unfold edgesInRange. rewrite He, Hlen.
  eapply Forall_impl; [exact Hr|]. cbn beta. tauto.
Qed.

End NetworkFacts.

(** ** Starting a local run *)

Lemma countState_insert_le s (ns : list Node) k n1 :
  (countState s (<[k := n1]> ns) <= countState s ns + 1)%nat.
Proof.
  revert k. induction ns as [|n ns IH]; intros k;
    [destruct k; unfold countState; cbn; lia|].
  destruct k as [|k]; simpl.
  - rewrite !countState_cons. repeat destruct (decide _); lia.
  - rewrite !countState_cons. specialize (IH k). lia.
Qed.

Lemma countState_lookup_pos s (ns : list Node) k n :
  ns !! k = Some n -> state n = s -> (1 <= countState s ns)%nat.
Proof.
  revert k. induction ns as [|m ns IH]; intros k Hk Hs; [done|].
  rewrite countState_cons. destruct k as [|k]; simpl in Hk.
  - injection Hk as ->. rewrite decide_True by done. lia.
  - specialize (IH k Hk Hs). lia.
Qed.

Lemma countState_healthy_only s (ns : list Node) :
  s <> healthy -> countState s (map clearNode ns) = 0%nat.
Proof.
  intros Hs. induction ns as [|n ns IH]; [done|].
  cbn [map]. rewrite countState_cons, IH.
  rewrite decide_False; [done|]. simpl. congruence.
Qed.

Lemma freshlySeeded_clearNode n : freshlySeeded (clearNode n).
Proof. unfold freshlySeeded. simpl. auto. Qed.

Lemma freshlySeeded_infect n : freshlySeeded n -> freshlySeeded (infect n).
Proof. unfold freshlySeeded. simpl. intros (_ & ? & _). auto. Qed.

Section StartFacts.

Variable rng : nat -> Q.

Lemma seedLoop_spec fuel (ns : list Node) p ns1 p1 :
  seedLoop rng fuel ns p = Some (ns1, p1) ->
  p1 = (p + fuel)%nat /\ length ns1 = length ns /\
  (Forall freshlySeeded ns -> Forall freshlySeeded ns1) /\
  (countState infected ns1 <= countState infected ns + fuel)%nat /\
  (forall k n, ns !! k = Some n -> state n = infected ->
     exists n1, ns1 !! k = Some n1 /\ state n1 = infected) /\
  (0 < fuel -> 1 <= countState infected ns1)%nat.
Proof.
  revert ns p. induction fuel as [|fuel IH]; intros ns p; cbn [seedLoop].
  - intros [= <- <-]. repeat split; try done; try lia. by eauto.
  - set (i := randomBelow rng (length ns) p).
    destruct (ns !! i) as [n|] eqn:Hi; [|done].
    intros Hrest.
    destruct (IH _ _ Hrest) as (Hp & Hlen & Hfresh & Hcount & Hkeep & _).
    rewrite length_insert in Hlen.
    assert (i < length ns)%nat as Hlt by (by eapply lookup_lt_Some).
    split; [lia|]. split; [done|]. split; [|split; [|split]].
    + intros Hall. apply Hfresh. apply Forall_insert; [done|].
      apply freshlySeeded_infect. by eapply Forall_lookup_1.
    + pose proof (countState_insert_le infected ns i (infect n)). lia.
    + intros k m Hk Hs. destruct (decide (i = k)) as [<- | Hne].
      * apply (Hkeep i (infect n)); [|done]. by apply list_lookup_insert_eq.
      * apply (Hkeep k m); [|done]. by rewrite list_lookup_insert_ne.
    + intros _.
      destruct (Hkeep i (infect n)) as (n1 & Hn1 & Hs1);
        [by apply list_lookup_insert_eq|done|].
      by eapply countState_lookup_pos.
Qed.

Lemma seedLoop_None fuel (ns : list Node) p :
  unitDraws rng ->
  seedLoop rng fuel ns p = None <-> ns = [] /\ (0 < fuel)%nat.
Proof.
  intros Hu. revert ns p. induction fuel as [|fuel IH]; intros ns p;
    cbn [seedLoop].
  - split; [done|]. intros [_ ?]. lia.
  - destruct ns as [|n ns].
    + split; [intros _; split; [done|lia]|done].
    + set (l := n :: ns).
      pose proof (randomBelow_range rng Hu (length l) p ltac:(simpl; lia))
        as Hlt.
      destruct (lookup_lt_is_Some_2 l _ Hlt) as [m Hm]. rewrite Hm.
      rewrite IH. split; [|by intros [? _]].
      intros [Hnil _]. apply (f_equal length) in Hnil.
      rewrite length_insert in Hnil. done.
Qed.

(** What the seeding leaves behind. *)
Lemma seedSimulation_facts inp w p w1 p1 :
  seedSimulation rng inp w p = Some (w1, p1) ->
  Forall freshlySeeded (nodes (simulation w1)) /\
  (countState infected (nodes (simulation w1))
   <= Z.to_nat (in_initialInfected inp))%nat /\
  (0 < in_initialInfected inp ->
   (1 <= countState infected (nodes (simulation w1)))%nat) /\
  length (nodes (simulation w1)) = length (nodes (simulation w)) /\
  p1 = (p + Z.to_nat (in_initialInfected inp))%nat /\
  simulation w1
  = mkSimulation true (nodes (simulation w1)) (edges (simulation w)) 0 0
      (backendConnected (simulation w)) (in_infectionRate inp)
      (in_recoveryRate inp) (in_deathRate inp) (in_quarantineRate inp) /\
  nodeAnimations w1 = nodeAnimations w /\
  realtimeChart w1 = clear (realtimeChart w).
Proof.
  unfold seedSimulation.
  destruct (seedLoop _ _ _ _) as [[ns1 q1]|] eqn:Hseed; [|done].
  intros [= <- <-]. cbn [simulation nodes realtimeChart nodeAnimations].
  destruct (seedLoop_spec _ _ _ _ _ Hseed)
    as (Hp & Hlen & Hfresh & Hcount & _ & Hpos).
  rewrite length_map in Hlen.
  rewrite countState_healthy_only in Hcount by done.
  split.
  { apply Hfresh. apply Forall_map, Forall_forall. intros n _.
    apply freshlySeeded_clearNode. }
  split; [lia|]. split; [intros; apply Hpos; lia|].
  by repeat split.
Qed.

(** X19.  Seeding.  When [startFallbackSimulation] has seeded the
    population, every node has both counters at zero and is Healthy or
    Infected; the number of Infected nodes is at least one (when a positive
    number was asked for) and at most the number asked for: the indices are
    drawn with replacement, so fewer nodes than asked can be infected.  One
    draw is consumed per requested infection; the run is flagged as running
    at step 0 with the rates of the form, and the chart is empty. *)
Theorem seeding_infects_at_most_requested inp w p w1 p1 :
  seedSimulation rng inp w p = Some (w1, p1) ->
  Forall freshlySeeded (nodes (simulation w1)) /\
  (countState infected (nodes (simulation w1))
   <= Z.to_nat (in_initialInfected inp))%nat /\
  (0 < in_initialInfected inp ->
   (1 <= countState infected (nodes (simulation w1)))%nat) /\
  length (nodes (simulation w1)) = length (nodes (simulation w)) /\
  p1 = (p + Z.to_nat (in_initialInfected inp))%nat /\
  running (simulation w1) = true /\
  step (simulation w1) = 0 /\ day (simulation w1) = 0 /\
  infectionRate (simulation w1) = in_infectionRate inp /\
  recoveryRate (simulation w1) = in_recoveryRate inp /\
  deathRate (simulation w1) = in_deathRate inp /\
  quarantineRate (simulation w1) = in_quarantineRate inp /\
  data (realtimeChart w1) = emptyData.
Proof.
  intros Hseed.
  destruct (seedSimulation_facts _ _ _ _ _ Hseed)
    as (Hfresh & Hle & Hge & Hlen & Hp & Hsim & _ & Hchart).
  rewrite Hsim, Hchart. cbn [running step day infectionRate recoveryRate
    deathRate quarantineRate nodes clear data].
  by repeat split.
Qed.

(** X20.  Starting on an empty population.  With draws in [0, 1) the
    seeding throws exactly when the population is empty and at least one
    initial infection is asked for; in every other case it completes. *)
Theorem seeding_throws_iff_empty_population inp w p :
  unitDraws rng ->
  seedSimulation rng inp w p = None <->
  nodes (simulation w) = [] /\ 0 < in_initialInfected inp.
Proof.
  intros Hu. unfold seedSimulation.
  destruct (seedLoop _ _ _ _) as [[ns1 q1]|] eqn:Hseed.
  - split; [done|]. intros [Hnil Hpos].
    assert (seedLoop rng (Z.to_nat (in_initialInfected inp))
              (map clearNode (nodes (simulation w))) p = None) as Hnone.
    { apply seedLoop_None; [done|]. rewrite Hnil. split; [done|lia]. }
    congruence.
  - split; [|done]. intros _.
    apply seedLoop_None in Hseed as [Hnil Hpos]; [|done].
    split; [|lia]. by destruct (nodes (simulation w)).
Qed.

Lemma stepped_afterFirstStep n n1 n2 :
  freshlySeeded n -> sameCompartment n n1 -> stepped n1 n2 ->
  afterFirstStep n2.
Proof.
  intros (Hi & _ & Hs) (_ & Hs1 & Hi1 & _) Hst. unfold afterFirstStep.
  rewrite <- Hs1 in Hs. rewrite <- Hi1 in Hi.
  destruct Hs as [Hh | Hinf].
  - destruct (stepped_from_healthy _ _ Hst Hh) as [-> | ?]; [left|right];
      done.
  - right. destruct (stepped_incubating _ _ Hst Hinf) as [? ?]; [lia|].
    split; [done|lia].
Qed.

(** X21.  The first step runs at once.  A local start (backend not
    connected) returns with the first step already taken: the step counter
    is 1, the chart holds exactly one point, stamped 1, and every node is
    Healthy with counter 0 or Infected with counter 1; the state the
    seeding produced (step 0) is never recorded. *)
Theorem start_takes_first_step now inp w p w2 p2 :
  backendConnected (simulation w) = false ->
  startFallbackSimulation rng now inp w p = Some (w2, p2) ->
  stepping w2 /\
  step (simulation w2) = 1 /\ day (simulation w2) = 0 /\
  length (nodes (simulation w2)) = length (nodes (simulation w)) /\
  Forall afterFirstStep (nodes (simulation w2)) /\
  windowOf [(computeStats (nodes (simulation w2)), Some 1)]
           (realtimeChart w2).
Proof.
  intros Hback. unfold startFallbackSimulation.
  destruct (seedSimulation rng inp w p) as [[w1 p1]|] eqn:Hseed; [|done].
  intros Hstep.
  destruct (seedSimulation_facts _ _ _ _ _ Hseed)
    as (Hfresh & _ & _ & Hlen & _ & Hsim & _ & Hchart).
  destruct (animationLoop_sameCompartment now w1)
    as (HF & Hrun' & Hb' & Hst' & _ & _ & Hchart').
  assert (stepping (animationLoop now w1)) as Hstepping.
  { split; [rewrite Hrun'|rewrite Hb']; by rewrite Hsim. }
  assert (step (simulation (animationLoop now w1)) = 0) as Hst0
    by (rewrite Hst'; by rewrite Hsim).
  destruct (fallbackSimulationLoop_stepping rng _ _ _ _ _ Hstepping Hstep)
    as (Hstepping2 & _ & _ & _ & _ & _ & Hs2 & Hd2 & Hc2 & HF2).
  split; [done|]. split; [lia|]. split; [by rewrite Hd2, Hst0|].
  split.
  { rewrite <- Hlen. rewrite (Forall2_length _ _ _ HF).
    symmetry. by eapply Forall2_length. }
  split.
  - apply Forall_lookup. intros k n2 Hn2.
    destruct (Forall2_lookup_r _ _ _ _ _ HF2 Hn2) as (n1 & Hn1 & Hst12).
    destruct (Forall2_lookup_r _ _ _ _ _ HF Hn1) as (n & Hn & Hsame).
    eapply stepped_afterFirstStep; [|exact Hsame|exact Hst12].
    by eapply Forall_lookup_1.
  - rewrite Hc2, Hst0, Hchart', Hchart.
    apply (windowOf_addDataPoint [] _ _ _ (windowOf_clear _)).
Qed.

(** X22.  Starting while the backend is flagged connected.  When
    [startFallbackSimulation] runs with [backendConnected] set (the path
    taken when the start request to the backend fails), the run is flagged
    as running at step 0 with an empty chart, but no invocation of the local
    loop ever steps it: the page state stays as it is. *)
Theorem start_with_backend_flag_never_steps now inp w p w2 p2 nows :
  backendConnected (simulation w) = true ->
  startFallbackSimulation rng now inp w p = Some (w2, p2) ->
  running (simulation w2) = true /\
  step (simulation w2) = 0 /\
  data (realtimeChart w2) = emptyData /\
  Forall (fun n => infectionTime n = 0 /\ quarantineTime n = 0
                   /\ (state n = healthy \/ state n = infected))
         (nodes (simulation w2)) /\
  runSteps rng nows w2 p2 = Some (w2, p2).
Proof.
  intros Hback. unfold startFallbackSimulation.
  destruct (seedSimulation rng inp w p) as [[w1 p1]|] eqn:Hseed; [|done].
  destruct (seedSimulation_facts _ _ _ _ _ Hseed)
    as (Hfresh & _ & _ & _ & _ & Hsim & _ & Hchart).
  destruct (animationLoop_sameCompartment now w1)
    as (HF & Hrun' & Hb' & Hst' & _ & _ & Hchart').
  assert (backendConnected (simulation (animationLoop now w1)) = true) as Hb.
  { rewrite Hb'. by rewrite Hsim. }
  rewrite fallbackSimulationLoop_idle by (by right).
  intros [= <- <-].
  split; [rewrite Hrun'; by rewrite Hsim|].
  split; [rewrite Hst'; by rewrite Hsim|].
  split; [by rewrite Hchart', Hchart|].
  split.
  - apply Forall_lookup. intros k n1 Hn1.
    destruct (Forall2_lookup_r _ _ _ _ _ HF Hn1) as (n & Hn & Hsame).
    pose proof (Forall_lookup_1 _ _ _ _ Hfresh Hn) as (Hi & Hq & Hs).
    destruct Hsame as (_ & Hs1 & Hi1 & Hq1).
    rewrite Hs1, Hi1, Hq1. done.
  - induction nows as [|t rest IH]; [done|].
    cbn [runSteps]. rewrite fallbackSimulationLoop_idle by (by right). done.
Qed.

End StartFacts.

(** ** The further properties on the example states *)

Lemma run_never_throws_witness :
  exists w1 p1,
    runSteps rng0 [0; 1000] chainWorld 0 = Some (w1, p1) /\ edgesInRange w1.
Proof.
  apply (run_never_throws rng0 [0; 1000] chainWorld 0%nat).
  unfold edgesInRange. simpl. repeat constructor; lia.
Defined.

Lemma step_throws_iff_dangling_edge_witness :
  fallbackSimulationLoop rng0 0 danglingWorld 0 = None
  <-> ~ edgesInRange danglingWorld.
Proof.
  apply (step_throws_iff_dangling_edge rng0 0 danglingWorld 0%nat).
  split; reflexivity.
Defined.

Lemma run_counts_steps_witness :
  step (simulation chainWorld2)
  = step (simulation chainWorld) + Z.of_nat (length [0; 1000]).
Proof.
  apply (run_counts_steps rng0 [0; 1000] chainWorld 0%nat chainWorld2 3%nat).
  - split; reflexivity.
  - vm_compute. reflexivity.
Defined.

Lemma run_records_each_step_witness :
  exists pts1,
    windowOf ([] ++ pts1) (realtimeChart chainWorld2) /\
    maxDataPoints (realtimeChart chainWorld2)
    = maxDataPoints (realtimeChart chainWorld) /\
    map snd pts1 = stepStamps (step (simulation chainWorld))
                              (length [0; 1000]) /\
    Forall (fun pt => statsTotal pt.1
                      = Some (Z.of_nat
                                (length (nodes (simulation chainWorld)))))
           pts1.
Proof.
  apply (run_records_each_step rng0 [0; 1000] chainWorld 0%nat chainWorld2
           3%nat []).
  - split; reflexivity.
  - reflexivity.
  - vm_compute. reflexivity.
Defined.

Lemma infected_for_seven_steps_witness :
  exists n1, nodes (simulation chainWorld2) !! 0%nat = Some n1 /\
             state n1 = infected /\
             infectionTime n1
             = infectionTime (exampleNode 0 infected 0 0)
               + Z.of_nat (length [0; 1000]) /\
             infectionTime n1 <= 7.
Proof.
  apply (infected_for_seven_steps rng0 [0; 1000] chainWorld 0%nat chainWorld2
           3%nat 0%nat (exampleNode 0 infected 0 0)).
  - split; reflexivity.
  - vm_compute. reflexivity.
  - reflexivity.
  - reflexivity.
  - vm_compute. discriminate.
Defined.

Lemma quarantined_never_dies_witness :
  exists n1, nodes (simulation chainWorld2) !! 5%nat = Some n1 /\
             (state n1 = quarantined \/ state n1 = recovered) /\
             infectionTime n1 = infectionTime (exampleNode 5 quarantined 9 14).
Proof.
  apply (quarantined_never_dies rng0 [0; 1000] chainWorld 0%nat chainWorld2
           3%nat 5%nat (exampleNode 5 quarantined 9 14)).
  - vm_compute. reflexivity.
  - reflexivity.
  - reflexivity.
Defined.

Lemma death_and_recovery_sources_witness :
  (state (exampleNode 5 recovered 9 15) = deceased ->
   state (exampleNode 5 quarantined 9 14) = deceased \/
   (state (exampleNode 5 quarantined 9 14) = infected /\
    infectionTime (exampleNode 5 recovered 9 15)
    = infectionTime (exampleNode 5 quarantined 9 14) + 1
    /\ 14 < infectionTime (exampleNode 5 recovered 9 15))) /\
  (state (exampleNode 5 recovered 9 15) = recovered ->
   state (exampleNode 5 quarantined 9 14) = recovered \/
   (state (exampleNode 5 quarantined 9 14) = infected /\
    infectionTime (exampleNode 5 recovered 9 15)
    = infectionTime (exampleNode 5 quarantined 9 14) + 1
    /\ 14 < infectionTime (exampleNode 5 recovered 9 15)) \/
   (state (exampleNode 5 quarantined 9 14) = quarantined /\
    quarantineTime (exampleNode 5 recovered 9 15)
    = quarantineTime (exampleNode 5 quarantined 9 14) + 1
    /\ 14 < quarantineTime (exampleNode 5 recovered 9 15))).
Proof.
  apply (death_and_recovery_sources rng0 0 chainWorld 0%nat chainWorld1 3%nat
           5%nat (exampleNode 5 quarantined 9 14)
           (exampleNode 5 recovered 9 15)).
  - vm_compute. reflexivity.
  - reflexivity.
  - reflexivity.
Defined.

Lemma zero_infection_rate_never_infects_witness :
  nodes (simulation zeroRateWorld2) !! 1%nat
  = Some (exampleNode 1 healthy 0 0).
Proof.
  apply (zero_infection_rate_never_infects rng0 [0; 1000] zeroRateWorld 0%nat
           zeroRateWorld2 3%nat 1%nat (exampleNode 1 healthy 0 0)).
  - intros k. split; vm_compute; [discriminate|reflexivity].
  - vm_compute. discriminate.
  - vm_compute. reflexivity.
  - reflexivity.
  - reflexivity.
Defined.

Lemma certain_rate_infects_neighbour_witness :
  exists nb1, nodes (simulation chainWorld1) !! 1%nat = Some nb1 /\
              state nb1 = infected /\ infectionTime nb1 = 1.
Proof.
  apply (certain_rate_infects_neighbour rng0 0 chainWorld 0%nat chainWorld1
           3%nat (mkEdge 0 1) 0%nat 1%nat (exampleNode 0 infected 0 0)
           (exampleNode 1 healthy 0 0)).
  - split; reflexivity.
  - intros k. reflexivity.
  - simpl. apply list_elem_of_here.
  - left. split; reflexivity.
  - reflexivity.
  - reflexivity.
  - reflexivity.
  - reflexivity.
  - vm_compute. reflexivity.
Defined.

Lemma certain_rate_quarantines_witness :
  exists n1, nodes (simulation weekWorld1) !! 0%nat = Some n1 /\
             state n1 = quarantined /\ quarantineTime n1 = 0 /\
             infectionTime n1 = infectionTime (exampleNode 0 infected 7 0) + 1
             /\ 7 < infectionTime n1 <= 14 /\
             is_Some (originalX n1) /\ is_Some (originalY n1).
Proof.
  apply (certain_rate_quarantines rng0 0 weekWorld 0%nat weekWorld1 1%nat
           0%nat (exampleNode 0 infected 7 0)).
  - split; reflexivity.
  - intros j. reflexivity.
  - reflexivity.
  - reflexivity.
  - simpl. lia.
  - vm_compute. reflexivity.
Defined.

Lemma quarantined_on_eighth_step_witness :
  (exists n1, nodes (simulation dayZeroWorld7) !! 0%nat = Some n1
              /\ state n1 = infected) /\
  (exists n2, nodes (simulation dayZeroWorld8) !! 0%nat = Some n2 /\
              state n2 = quarantined /\ infectionTime n2 = 8).
Proof.
  apply (quarantined_on_eighth_step rng0 sevenSteps 7000 dayZeroWorld 0%nat
           dayZeroWorld7 0%nat dayZeroWorld8 1%nat 0%nat
           (exampleNode 0 infected 0 0)).
  - split; reflexivity.
  - intros j. reflexivity.
  - reflexivity.
  - reflexivity.
  - reflexivity.
  - vm_compute. reflexivity.
  - vm_compute. reflexivity.
Defined.

Lemma quarantine_slot_inside_area_witness :
  quarantineSlotX 7 = quarantineSlotX 107
  /\ quarantineSlotY 7 = quarantineSlotY 107.
Proof.
  apply (quarantine_slot_inside_area 0 (exampleNode 7 quarantined 8 0) ∅).
  reflexivity.
Defined.

Lemma animation_stays_on_segment_witness :
  let r := updateAnimation 250 exampleAnimation
                           (exampleNode 0 quarantined 8 0) in
  ((1 # 2) <= x r.1)%Q /\ (x r.1 <= (7125 # 10000))%Q.
Proof.
  apply (animation_stays_on_segment 250 exampleAnimation
           (exampleNode 0 quarantined 8 0)).
  - reflexivity.
  - vm_compute. discriminate.
  - vm_compute. discriminate.
Defined.

Lemma quarantine_round_trip_witness :
  let node := exampleNode 3 infected 8 0 in
  let r0 := startQuarantineAnimation 0 (set_state quarantined node) ∅ in
  exists a0, r0.2 !! id node = Some a0 /\
    let r1 := updateAnimation 1000 a0 r0.1 in
    r1.2 = true /\
    (x r1.1 == quarantineSlotX (id node))%Q /\
    (y r1.1 == quarantineSlotY (id node))%Q /\
    originalX r1.1 = Some (x node) /\ originalY r1.1 = Some (y node) /\
    let released := set_state recovered r1.1 in
    exists a2,
      endQuarantineAnimation 20000 released (delete (id node) r0.2) !! id node
      = Some a2 /\
      let r3 := updateAnimation 21000 a2 released in
      r3.2 = true /\ x r3.1 = x node /\ y r3.1 = y node /\
      originalX r3.1 = None /\ originalY r3.1 = None /\
      state r3.1 = recovered.
Proof.
  apply (quarantine_round_trip 0 1000 20000 21000
           (exampleNode 3 infected 8 0) ∅).
  - left. reflexivity.
  - vm_compute. discriminate.
  - vm_compute. discriminate.
Defined.

Lemma updateAnimations_per_node_witness :
  let ns := [exampleNode 0 quarantined 8 0; exampleNode 1 healthy 0 0] in
  let r := updateAnimations 250 ns {[0%nat := exampleAnimation]} in
  length r.1 = length ns.
Proof.
  apply (updateAnimations_per_node 250
           [exampleNode 0 quarantined 8 0; exampleNode 1 healthy 0 0]
           {[0%nat := exampleAnimation]}).
  intros k n Hk. destruct k as [|[|k]]; simpl in Hk.
  - injection Hk as <-. reflexivity.
  - injection Hk as <-. reflexivity.
  - discriminate.
Defined.

Lemma fallback_network_nodes_witness :
  length (createFallbackNetwork rng0 0).1.1 = nodeCount.
Proof.
  apply (fallback_network_nodes rng0).
  intros k. split; vm_compute; [discriminate|reflexivity].
Defined.

Lemma fallback_network_edges_in_range_witness :
  Forall (fun e => (source e < nodeCount)%nat /\ (target e < nodeCount)%nat
                   /\ target e <> source e)
         (createFallbackNetwork rng0 0).1.2.
Proof.
  apply (fallback_network_edges_in_range rng0
           ltac:(intros k; split; vm_compute; [discriminate|reflexivity])
           0%nat chainWorld).
Defined.

Lemma seeding_infects_at_most_requested_witness :
  Forall freshlySeeded (nodes (simulation seededWorld)) /\
  (countState infected (nodes (simulation seededWorld))
   <= Z.to_nat (in_initialInfected exampleInputs))%nat.
Proof.
  destruct (seeding_infects_at_most_requested rng0 exampleInputs idleWorld
              0%nat seededWorld 2%nat) as (Hfresh & Hle & _).
  - vm_compute. reflexivity.
  - split; [exact Hfresh|exact Hle].
Defined.

Lemma seeding_throws_iff_empty_population_witness :
  seedSimulation rng0 exampleInputs emptyWorld 0 = None <->
  nodes (simulation emptyWorld) = [] /\ 0 < in_initialInfected exampleInputs.
Proof.
  apply (seeding_throws_iff_empty_population rng0 exampleInputs emptyWorld
           0%nat).
  intros k. split; vm_compute; [discriminate|reflexivity].
Defined.

Lemma start_takes_first_step_witness :
  stepping startedWorld /\
  step (simulation startedWorld) = 1 /\ day (simulation startedWorld) = 0 /\
  length (nodes (simulation startedWorld))
  = length (nodes (simulation idleWorld)) /\
  Forall afterFirstStep (nodes (simulation startedWorld)) /\
  windowOf [(computeStats (nodes (simulation startedWorld)), Some 1)]
           (realtimeChart startedWorld).
Proof.
  apply (start_takes_first_step rng0 0 exampleInputs idleWorld 0%nat
           startedWorld 4%nat).
  - reflexivity.
  - vm_compute. reflexivity.
Defined.

Lemma start_with_backend_flag_never_steps_witness :
  running (simulation startedConnectedWorld) = true /\
  step (simulation startedConnectedWorld) = 0 /\
  data (realtimeChart startedConnectedWorld) = emptyData /\
  Forall (fun n => infectionTime n = 0 /\ quarantineTime n = 0
                   /\ (state n = healthy \/ state n = infected))
         (nodes (simulation startedConnectedWorld)) /\
  runSteps rng0 [0; 1000] startedConnectedWorld 2
  = Some (startedConnectedWorld, 2%nat).
Proof.
  apply (start_with_backend_flag_never_steps rng0 0 exampleInputs
           connectedWorld 0%nat startedConnectedWorld 2%nat [0; 1000]).
  - reflexivity.
  - vm_compute. reflexivity.
Defined.
